(** * console-client.c: the terminal-side relay of the console server

    A shallow embedding of [src/console-client.c] and the properties of its
    escape-sequence scanner ([process_tty]) and of its relay loop ([main]).

    The C code talks to the outside through system calls.  They are embedded
    as functions on an explicit [world]: the answers the environment will
    give (what each [read] returns, whether a write goes through, ...) are
    scripts the calls consume, and every call is appended to a chronological
    trace, from which the bytes that reached a file descriptor are read off.
    A C operation whose behaviour is undefined (an index past the end of
    [esc_str], a length past the end of a buffer) makes the embedding return
    [None]. *)

From Stdlib Require Import String Ascii Strings.Byte.
From Stdlib Require Import ZArith List Bool Lia.
Import ListNotations.

Local Open Scope Z_scope.

(** ** Data *)

(** [enum process_rc] *)
Inductive process_rc : Type :=
| PROCESS_OK
| PROCESS_ERR
| PROCESS_EXIT.

Definition process_rc_eqb (a b : process_rc) : bool :=
  match a, b with
  | PROCESS_OK, PROCESS_OK => true
  | PROCESS_ERR, PROCESS_ERR => true
  | PROCESS_EXIT, PROCESS_EXIT => true
  | _, _ => false
  end.

(** [struct termios] is opaque to the client: it is copied, made raw and
    handed back to the terminal.  Only what tells two settings apart is kept:
    the flag words as one number, and whether [cfmakeraw] was applied. *)
Record termios : Type := {
  t_flags : Z;
  t_raw : bool
}.

Definition zero_termios : termios := {| t_flags := 0; t_raw := false |}.

Definition cfmakeraw (t : termios) : termios :=
  {| t_flags := t_flags t; t_raw := true |}.

(** [struct console_client] *)
Record console_client : Type := {
  console_sd : Z;
  fd_in : Z;
  fd_out : Z;
  is_tty : bool;
  orig_termios : termios;
  esc_str_pos : Z;
  newline : bool
}.

Definition set_console_sd (v : Z) (c : console_client) : console_client :=
  {| console_sd := v; fd_in := fd_in c; fd_out := fd_out c; is_tty := is_tty c;
     orig_termios := orig_termios c; esc_str_pos := esc_str_pos c;
     newline := newline c |}.

Definition set_tty_fds (i o : Z) (t : bool) (c : console_client) : console_client :=
  {| console_sd := console_sd c; fd_in := i; fd_out := o; is_tty := t;
     orig_termios := orig_termios c; esc_str_pos := esc_str_pos c;
     newline := newline c |}.

Definition set_orig_termios (t : termios) (c : console_client) : console_client :=
  {| console_sd := console_sd c; fd_in := fd_in c; fd_out := fd_out c;
     is_tty := is_tty c; orig_termios := t; esc_str_pos := esc_str_pos c;
     newline := newline c |}.

Definition set_esc_str_pos (p : Z) (c : console_client) : console_client :=
  {| console_sd := console_sd c; fd_in := fd_in c; fd_out := fd_out c;
     is_tty := is_tty c; orig_termios := orig_termios c; esc_str_pos := p;
     newline := newline c |}.

Definition set_newline (b : bool) (c : console_client) : console_client :=
  {| console_sd := console_sd c; fd_in := fd_in c; fd_out := fd_out c;
     is_tty := is_tty c; orig_termios := orig_termios c;
     esc_str_pos := esc_str_pos c; newline := b |}.

(** [memset(client, 0, sizeof( *client))] *)
Definition zero_client : console_client :=
  {| console_sd := 0; fd_in := 0; fd_out := 0; is_tty := false;
     orig_termios := zero_termios; esc_str_pos := 0; newline := false |}.

(** The characters the scanner looks at. *)
Definition CR : byte := x0d.      (* '\r' *)
Definition TILDE : byte := x7e.   (* '~'  *)
Definition DOT : byte := x2e.     (* '.'  *)
Definition LOWER_X : byte := x78. (* 'x', a byte that is no part of the escape *)
Definition LOWER_A : byte := x61. (* 'a' *)
Definition LOWER_B : byte := x62. (* 'b' *)

(** [static const uint8_t esc_str[] = { '~', '.' };] *)
Definition esc_str : list byte := [TILDE; DOT].

(** Modelled from the spec: [ARRAY_SIZE] is a macro of console-server.h,
    which is not part of this file; [ARRAY_SIZE(esc_str)] is the pattern
    length, the number of elements of [esc_str]. *)
Definition ARRAY_SIZE_esc_str : Z := Z.of_nat (length esc_str).

Definition STDIN_FILENO : Z := 0.
Definition STDOUT_FILENO : Z := 1.
Definition STDERR_FILENO : Z := 2.
Definition EXIT_SUCCESS : Z := 0.
Definition EXIT_FAILURE : Z := 1.

(** Size of the local buffers [buf[4096]]. *)
Definition BUFSZ : nat := 4096.

(** [a[i]] for a C array: defined only inside the array. *)
Definition index {A : Type} (a : list A) (i : Z) : option A :=
  if i <? 0 then None else nth_error a (Z.to_nat i).

(** The first [n] elements of a buffer, as a (pointer, length) pair handed to
    a writer: defined only when [n] is a length inside the buffer (a negative
    [n] would convert to a huge [size_t]). *)
Definition take (n : Z) (buf : list byte) : option (list byte) :=
  if (0 <=? n) && (n <=? Z.of_nat (length buf))
  then Some (firstn (Z.to_nat n) buf)
  else None.

(** ** The environment *)

(** What one [read(fd, buf, sizeof(buf))] returns: an error (a negative
    length), or the bytes read; no byte is the zero-length read. *)
Inductive read_result : Type :=
| RdErr
| RdData (bs : list byte).

(** What becomes of one [write_buf_to_fd] call: every byte went out, or the
    call failed after [sent] bytes had gone out. *)
Inductive write_outcome : Type :=
| WrOk
| WrFail (sent : nat).

(** What one [poll] returns: a failure (a negative value), or the [revents]
    of the two descriptors, as the truth values the loop tests. *)
Inductive poll_result : Type :=
| PollErr
| PollReady (tty_revents con_revents : bool).

Inductive event : Type :=
| EvSocket (ret : Z)
| EvConnect (sd rc : Z)
| EvIsatty (fd : Z) (ret : bool)
| EvTcgetattr (fd rc : Z)
| EvTcsetattr (fd : Z) (t : termios) (rc : Z)
| EvPoll (r : poll_result)
| EvRead (fd : Z) (r : read_result)
| EvWrite (fd : Z) (bs : list byte) (o : write_outcome)
| EvWarn (msg : string)
| EvStderr (msg : string)
| EvClose (fd : Z).

(** Answers the environment gives once, at start-up. *)
Record startup : Type := {
  st_socket : Z;        (* what socket() returns *)
  st_connect : Z;       (* what connect() returns *)
  st_isatty : bool;     (* isatty(STDIN_FILENO) *)
  st_tcgetattr : Z      (* what tcgetattr() returns *)
}.

Record world : Type := {
  w_start : startup;
  w_termios : termios;              (* current attributes of the terminal *)
  w_tcset : list Z;                 (* results of the next tcsetattr calls; 0 when exhausted *)
  w_tty_in : list read_result;      (* pending input of the terminal; end of file when exhausted *)
  w_con_in : list read_result;      (* pending input of the socket; closed when exhausted *)
  w_wr : list write_outcome;        (* outcomes of the next writes; success when exhausted *)
  w_trace : list event              (* the calls made so far, oldest first *)
}.

Definition emit (e : event) (w : world) : world :=
  {| w_start := w_start w; w_termios := w_termios w; w_tcset := w_tcset w;
     w_tty_in := w_tty_in w; w_con_in := w_con_in w; w_wr := w_wr w;
     w_trace := w_trace w ++ [e] |}.

Definition set_termios (t : termios) (w : world) : world :=
  {| w_start := w_start w; w_termios := t; w_tcset := w_tcset w;
     w_tty_in := w_tty_in w; w_con_in := w_con_in w; w_wr := w_wr w;
     w_trace := w_trace w |}.

Definition set_tcset (q : list Z) (w : world) : world :=
  {| w_start := w_start w; w_termios := w_termios w; w_tcset := q;
     w_tty_in := w_tty_in w; w_con_in := w_con_in w; w_wr := w_wr w;
     w_trace := w_trace w |}.

Definition set_tty_in (q : list read_result) (w : world) : world :=
  {| w_start := w_start w; w_termios := w_termios w; w_tcset := w_tcset w;
     w_tty_in := q; w_con_in := w_con_in w; w_wr := w_wr w;
     w_trace := w_trace w |}.

Definition set_con_in (q : list read_result) (w : world) : world :=
  {| w_start := w_start w; w_termios := w_termios w; w_tcset := w_tcset w;
     w_tty_in := w_tty_in w; w_con_in := q; w_wr := w_wr w;
     w_trace := w_trace w |}.

Definition set_wr (q : list write_outcome) (w : world) : world :=
  {| w_start := w_start w; w_termios := w_termios w; w_tcset := w_tcset w;
     w_tty_in := w_tty_in w; w_con_in := w_con_in w; w_wr := q;
     w_trace := w_trace w |}.

(** ** System calls *)

(** One [read] of at most [BUFSZ] bytes from a queue of pending input: what
    does not fit in the buffer stays pending. *)
Definition pop_read (q : list read_result) : read_result * list read_result :=
  match q with
  | [] => (RdData [], [])
  | RdErr :: q' => (RdErr, q')
  | RdData bs :: q' =>
      if (length bs <=? BUFSZ)%nat then (RdData bs, q')
      else (RdData (firstn BUFSZ bs), RdData (skipn BUFSZ bs) :: q')
  end.

(** [read(fd, buf, sizeof(buf))]: standard input reads the terminal, any
    other descriptor of the client is the socket. *)
Definition read (fd : Z) (w : world) : read_result * world :=
  if fd =? STDIN_FILENO then
    let (r, q) := pop_read (w_tty_in w) in
    (r, emit (EvRead fd r) (set_tty_in q w))
  else
    let (r, q) := pop_read (w_con_in w) in
    (r, emit (EvRead fd r) (set_con_in q w)).

(** Modelled from the spec: [write_buf_to_fd] is declared in console-server.h
    and defined outside this file.  It writes the whole buffer to the
    descriptor and its result tells failure (negative, as [process_tty]
    tests it) from success (zero, as [process_console] tests it); whether a
    call fails is the environment's choice. *)
Definition write_buf_to_fd (fd : Z) (bs : list byte) (w : world) : Z * world :=
  match w_wr w with
  | [] => (0, emit (EvWrite fd bs WrOk) w)
  | WrOk :: q => (0, emit (EvWrite fd bs WrOk) (set_wr q w))
  | WrFail k :: q => (-1, emit (EvWrite fd bs (WrFail k)) (set_wr q w))
  end.

(** [tcsetattr(fd, TCSANOW, t)] *)
Definition tcsetattr (fd : Z) (t : termios) (w : world) : Z * world :=
  match w_tcset w with
  | [] => (0, emit (EvTcsetattr fd t 0) (set_termios t w))
  | rc :: q =>
      if rc =? 0 then (0, emit (EvTcsetattr fd t 0) (set_termios t (set_tcset q w)))
      else (rc, emit (EvTcsetattr fd t rc) (set_tcset q w))
  end.

(** The bytes an event delivered to descriptor [fd].  A write delivers its
    bytes, or those that went out before it failed, to its descriptor.  The
    messages go to standard error: [fprintf(stderr, ...)] delivers its
    text; [warn] prints a line made of the program name, the message and
    the text of [errno], of which the name and the error text belong to the
    environment, so that of this line the message is what is kept. *)
Definition delivered (fd : Z) (e : event) : list byte :=
  match e with
  | EvWrite fd' bs o =>
      if fd' =? fd then
        match o with
        | WrOk => bs
        | WrFail k => firstn k bs
        end
      else []
  | EvWarn msg => if STDERR_FILENO =? fd then list_byte_of_string msg else []
  | EvStderr msg => if STDERR_FILENO =? fd then list_byte_of_string msg else []
  | _ => []
  end.

(** Everything that reached descriptor [fd] along a trace, in order. *)
Definition sent_to (fd : Z) (tr : list event) : list byte :=
  flat_map (delivered fd) tr.

(** ** The terminal side: [process_tty] *)

(** How one turn of the [for] loop of [process_tty] ends. *)
Inductive scan_step : Type :=
| Continue (c : console_client) (w : world)   (* on to the next byte *)
| Return (c : console_client) (w : world).    (* [return PROCESS_EXIT] inside the loop *)

Definition step_client (s : scan_step) : console_client :=
  match s with
  | Continue c _ => c
  | Return c _ => c
  end.

Definition step_world (s : scan_step) : world :=
  match s with
  | Continue _ w => w
  | Return _ w => w
  end.

(** The body of the [for] loop, for the byte [buf[i]]. *)
Definition scan_byte (buf : list byte) (i : Z) (c : console_client) (w : world)
  : option scan_step :=
  match index buf i with
  | None => None
  | Some b =>
      (* the escape string is only valid after a newline *)
      if Byte.eqb b CR then Some (Continue (set_newline true c) w)
      else if negb (newline c) then Some (Continue c w)
      else
        match index esc_str (esc_str_pos c) with
        | None => None
        | Some e =>
            if Byte.eqb b e then
              (* [esc_str_pos++] on an [int]: no wrap-around, the position
                 has just been used as an index inside [esc_str] *)
              let c1 := set_esc_str_pos (esc_str_pos c + 1) c in
              (* have we hit the end of the escape string? *)
              if esc_str_pos c1 =? ARRAY_SIZE_esc_str then
                (* flush out any data before the escape *)
                if i >? esc_str_pos c1 then
                  match take (i - esc_str_pos c1) buf with
                  | None => None
                  | Some bs =>
                      Some (Return c1 (snd (write_buf_to_fd (console_sd c1) bs w)))
                  end
                else Some (Return c1 w)
              else Some (Continue c1 w)
            else
              (* if we're partially the way through the escape string,
                 flush out the bytes we'd skipped *)
              let c1 := set_newline false (set_esc_str_pos 0 c) in
              if esc_str_pos c =? 0 then Some (Continue c1 w)
              else
                match take (esc_str_pos c) esc_str with
                | None => None
                | Some bs =>
                    Some (Continue c1 (snd (write_buf_to_fd (console_sd c) bs w)))
                end
        end
  end.

(** [for (i = ...; i < len; i++)] with [n] turns left. *)
Fixpoint tty_loop (n : nat) (buf : list byte) (i : Z) (c : console_client)
  (w : world) : option scan_step :=
  match n with
  | O => Some (Continue c w)
  | S n' =>
      match scan_byte buf i c w with
      | None => None
      | Some (Return c' w') => Some (Return c' w')
      | Some (Continue c' w') => tty_loop n' buf (i + 1) c' w'
      end
  end.

Definition process_tty (client : console_client) (w : world)
  : option (process_rc * console_client * world) :=
  let (r, w1) := read (fd_in client) w in
  match r with
  | RdErr => Some (PROCESS_ERR, client, w1)
  | RdData buf =>
      let len := Z.of_nat (length buf) in
      if len =? 0 then Some (PROCESS_EXIT, client, w1)
      else
        match tty_loop (length buf) buf 0 client w1 with
        | None => None
        | Some (Return c2 w2) => Some (PROCESS_EXIT, c2, w2)
        | Some (Continue c2 w2) =>
            match take (len - esc_str_pos c2) buf with
            | None => None
            | Some bs =>
                let (rc, w3) := write_buf_to_fd (console_sd c2) bs w2 in
                if rc <? 0 then Some (PROCESS_ERR, c2, w3)
                else Some (PROCESS_OK, c2, w3)
            end
        end
  end.

(** ** The socket side: [process_console] *)

Definition newline_char : string := String (ascii_of_nat 10) EmptyString.

Definition process_console (client : console_client) (w : world)
  : process_rc * world :=
  let (r, w1) := read (console_sd client) w in
  match r with
  | RdErr => (PROCESS_ERR, emit (EvWarn "Can't read from server") w1)
  | RdData buf =>
      if Z.of_nat (length buf) =? 0 then
        (PROCESS_EXIT, emit (EvStderr ("Connection closed" ++ newline_char)) w1)
      else
        let (rc, w2) := write_buf_to_fd (fd_out client) buf w1 in
        (if rc =? 0 then PROCESS_OK else PROCESS_ERR, w2)
  end.

(** ** Set-up and tear-down *)

Definition client_tty_init (client : console_client) (w : world)
  : Z * console_client * world :=
  let t := st_isatty (w_start w) in
  let c1 := set_tty_fds STDIN_FILENO STDOUT_FILENO t client in
  let w1 := emit (EvIsatty (fd_in c1) t) w in
  if negb (is_tty c1) then (0, c1, w1)
  else
    let rc := st_tcgetattr (w_start w1) in
    let w2 := emit (EvTcgetattr (fd_in c1) rc) w1 in
    if negb (rc =? 0) then
      (-1, c1, emit (EvWarn "Can't get terminal attributes for console") w2)
    else
      let t0 := w_termios w2 in
      let c2 := set_orig_termios t0 c1 in
      let (rc2, w3) := tcsetattr (fd_in c2) (cfmakeraw t0) w2 in
      if negb (rc2 =? 0) then
        (-1, c2, emit (EvWarn "Can't set terminal attributes for console") w3)
      else (0, c2, w3).

Definition client_init (client : console_client) (w : world)
  : Z * console_client * world :=
  let sd := st_socket (w_start w) in
  let c1 := set_console_sd sd client in
  let w1 := emit (EvSocket sd) w in
  if console_sd c1 =? 0 then (-1, c1, emit (EvWarn "Can't open socket") w1)
  else
    let rc := st_connect (w_start w1) in
    let w2 := emit (EvConnect (console_sd c1) rc) w1 in
    if negb (rc =? 0) then
      (-1, c1, emit (EvClose (console_sd c1))
                 (emit (EvWarn "Can't connect to console server") w2))
    else (0, c1, w2).

Definition client_fini (client : console_client) (w : world) : world :=
  let w1 := if is_tty client
            then snd (tcsetattr (fd_in client) (orig_termios client) w)
            else w in
  emit (EvClose (console_sd client)) w1.

(** ** The relay loop of [main] *)

(** How the [for (;;)] loop is left, with the values of [prc] and [rc] then. *)
Inductive loop_end : Type :=
| BreakPoll (prc : process_rc) (rc : Z)     (* [break] after "Poll failure" *)
| BreakStatus (prc : process_rc) (rc : Z)   (* [break] on [prc != PROCESS_OK] *)
| Blocked.                                  (* [poll] does not return any more *)

(** The part of the loop body after a successful [poll]: the two
    [process_] calls.  [prc] is the loop's variable of that name. *)
Definition main_loop_body (tty_revents con_revents : bool) (prc : process_rc)
  (client : console_client) (w : world)
  : option (process_rc * console_client * world) :=
  match (if tty_revents then process_tty client w else Some (prc, client, w)) with
  | None => None
  | Some (prc1, c1, w1) =>
      if process_rc_eqb prc1 PROCESS_OK && con_revents then
        let (prc2, w2) := process_console c1 w1 in Some (prc2, c1, w2)
      else Some (prc1, c1, w1)
  end.

(** The loop, over the results the successive [poll] calls give. *)
Fixpoint main_loop (polls : list poll_result) (prc : process_rc)
  (client : console_client) (w : world)
  : option (loop_end * console_client * world) :=
  match polls with
  | [] => Some (Blocked, client, w)
  | p :: polls' =>
      let w0 := emit (EvPoll p) w in
      match p with
      | PollErr => Some (BreakPoll prc (-1), client, emit (EvWarn "Poll failure") w0)
      | PollReady r0 r1 =>
          match main_loop_body r0 r1 prc client w0 with
          | None => None
          | Some (prc', c', w') =>
              let rc := if process_rc_eqb prc' PROCESS_ERR then -1 else 0 in
              if negb (process_rc_eqb prc' PROCESS_OK)
              then Some (BreakStatus prc' rc, c', w')
              else main_loop polls' prc' c' w'
          end
      end
  end.

(** [return rc ? EXIT_FAILURE : EXIT_SUCCESS;] *)
Definition exit_status (rc : Z) : Z :=
  if negb (rc =? 0) then EXIT_FAILURE else EXIT_SUCCESS.

(** [main]: [Some code] is the exit code, [None] a process still waiting in
    [poll]. *)
Definition main (polls : list poll_result) (w : world)
  : option (option Z * world) :=
  let '(rc, client, w1) := client_init zero_client w in
  if negb (rc =? 0) then Some (Some EXIT_FAILURE, w1)
  else
    let '(rc, client, w2) := client_tty_init client w1 in
    if negb (rc =? 0) then Some (Some (exit_status rc), client_fini client w2)
    else
      match main_loop polls PROCESS_OK client w2 with
      | None => None
      | Some (Blocked, _, w3) => Some (None, w3)
      | Some (BreakPoll _ rc, c3, w3) =>
          Some (Some (exit_status rc), client_fini c3 w3)
      | Some (BreakStatus _ rc, c3, w3) =>
          Some (Some (exit_status rc), client_fini c3 w3)
      end.

(** ** Running the terminal side alone *)

(** Successive [process_tty] calls, as the loop makes them while each one
    returns [PROCESS_OK]; the statuses returned, in order. *)
Fixpoint tty_calls (n : nat) (client : console_client) (w : world)
  : option (list process_rc * console_client * world) :=
  match n with
  | O => Some ([], client, w)
  | S n' =>
      match process_tty client w with
      | None => None
      | Some (PROCESS_OK, c', w') =>
          match tty_calls n' c' w' with
          | None => None
          | Some (rcs, c'', w'') => Some (PROCESS_OK :: rcs, c'', w'')
          end
      | Some (rc, c', w') => Some ([rc], c', w')
      end
  end.

(** A world in which nothing has happened yet: the terminal will deliver
    [tty] and the socket [con], and the writes will end as [wr] tells. *)
Definition fresh_world (st : startup) (tty con : list read_result)
  (wr : list write_outcome) : world :=
  {| w_start := st; w_termios := {| t_flags := 1; t_raw := false |};
     w_tcset := []; w_tty_in := tty; w_con_in := con; w_wr := wr;
     w_trace := [] |}.

Definition tty_startup : startup :=
  {| st_socket := 3; st_connect := 0; st_isatty := true; st_tcgetattr := 0 |}.

(** The client as [main] has it when the loop starts on a terminal, socket
    on descriptor 3. *)
Definition session_client : console_client :=
  {| console_sd := 3; fd_in := STDIN_FILENO; fd_out := STDOUT_FILENO;
     is_tty := true; orig_termios := {| t_flags := 1; t_raw := false |};
     esc_str_pos := 0; newline := false |}.

(** ** States of the scanner *)

(** The scanner's two fields as [main] leaves them before the first call. *)
Definition scan_initial (c : console_client) : Prop :=
  esc_str_pos c = 0 /\ newline c = false.

(** The client states the scanner can be in when it looks at a byte: the
    initial one, and any state a turn of the loop goes on from. *)
Inductive scanning : console_client -> Prop :=
| scanning_start (c : console_client) :
    scan_initial c -> scanning c
| scanning_next (c : console_client) (buf : list byte) (i : Z) (w : world)
    (c' : console_client) (w' : world) :
    scanning c ->
    scan_byte buf i c w = Some (Continue c' w') ->
    scanning c'.

(** [esc_str_pos] is an index inside [esc_str]. *)
Definition pos_in_esc_str (c : console_client) : Prop :=
  0 <= esc_str_pos c < ARRAY_SIZE_esc_str.

(** A partial match is pending only after a carriage return. *)
Definition pending_after_newline (c : console_client) : Prop :=
  0 < esc_str_pos c -> newline c = true.

(** The fields of the client the scanner never writes. *)
Definition same_session (c c' : console_client) : Prop :=
  console_sd c' = console_sd c /\ fd_in c' = fd_in c /\ fd_out c' = fd_out c /\
  is_tty c' = is_tty c /\ orig_termios c' = orig_termios c.

(** Every write of the script succeeds. *)
Definition writes_succeed (w : world) : Prop :=
  Forall (fun o => o = WrOk) (w_wr w).

(** A chunk one [read] can return on a stream without carriage return. *)
Definition plain_chunk (ch : list byte) : Prop :=
  ch <> [] /\ (length ch <= BUFSZ)%nat /\ ~ In CR ch.

(** The exit codes as the claim on them reads: failure exactly when the loop
    ends with [PROCESS_ERR]. *)
Definition loop_vars (e : loop_end) : option (process_rc * Z) :=
  match e with
  | BreakPoll prc rc => Some (prc, rc)
  | BreakStatus prc rc => Some (prc, rc)
  | Blocked => None
  end.

Definition failure_only_on_process_err (polls : list poll_result)
  (c : console_client) (w : world) : Prop :=
  forall e c' w' prc rc,
    main_loop polls PROCESS_OK c w = Some (e, c', w') ->
    loop_vars e = Some (prc, rc) ->
    (exit_status rc = EXIT_FAILURE <-> prc = PROCESS_ERR).

(** What a run of the terminal side shows: the status (or statuses)
    returned, the scanner's two fields at the end, and the bytes that
    reached the socket. *)
Definition observe {S : Type} (r : option (S * console_client * world))
  : option (S * (Z * bool) * list byte) :=
  match r with
  | Some (s, c, w) =>
      Some (s, (esc_str_pos c, newline c), sent_to (console_sd c) (w_trace w))
  | None => None
  end.

(** The status returned and the calls made. *)
Definition calls_made (r : option (process_rc * console_client * world))
  : option (process_rc * list event) :=
  match r with
  | Some (rc, _, w) => Some (rc, w_trace w)
  | None => None
  end.

(** A world in which the terminal delivers the chunks [chunks], one per
    [read], and every write goes through. *)
Definition tty_world (chunks : list (list byte)) : world :=
  fresh_world tty_startup (map RdData chunks) [] [].

(** ** Further vocabulary *)

(** The scanner after a carriage return and a '~': one byte of the escape
    matched and withheld. *)
Definition scan_pending (c : console_client) : Prop :=
  esc_str_pos c = 1 /\ newline c = true.

(** The scanner right after a carriage return: armed, nothing matched yet. *)
Definition scan_armed (c : console_client) : Prop :=
  esc_str_pos c = 0 /\ newline c = true.

(** A chunk one [read] on the socket can return. *)
Definition console_chunk (ch : list byte) : Prop :=
  ch <> [] /\ (length ch <= BUFSZ)%nat.

(** The terminal side of the world: the answers given at start-up, the
    attributes of the terminal and the results [tcsetattr] will give. *)
Definition same_terminal (w w' : world) : Prop :=
  w_start w' = w_start w /\ w_termios w' = w_termios w /\
  w_tcset w' = w_tcset w.

(** [w'] comes after [w]: the terminal side is the same and the trace has
    grown by events that all satisfy [P]. *)
Definition extends (P : event -> Prop) (w w' : world) : Prop :=
  same_terminal w w' /\
  exists t, w_trace w' = w_trace w ++ t /\ Forall P t.

(** [w'] differs from [w] by calls that move no byte: the pending input,
    the outcomes of the writes to come and what each descriptor has received
    are the same. *)
Definition quiet (w w' : world) : Prop :=
  w_tty_in w' = w_tty_in w /\ w_con_in w' = w_con_in w /\
  w_wr w' = w_wr w /\
  forall fd, sent_to fd (w_trace w') = sent_to fd (w_trace w).

(** An event that is neither a write nor a message. *)
Definition silent (e : event) : bool :=
  match e with
  | EvWrite _ _ _ => false
  | EvWarn _ => false
  | EvStderr _ => false
  | _ => true
  end.

(** A write to the descriptor [fd]. *)
Definition write_on (fd : Z) (e : event) : Prop :=
  exists bs o, e = EvWrite fd bs o.

(** The calls [process_tty] may make: a read on [fd_in], writes on
    [console_sd]. *)
Definition tty_event (c : console_client) (e : event) : Prop :=
  (exists r, e = EvRead (fd_in c) r) \/ write_on (console_sd c) e.

(** The calls [process_console] may make: a read on [console_sd], a write on
    [fd_out], a message. *)
Definition console_event (c : console_client) (e : event) : Prop :=
  (exists r, e = EvRead (console_sd c) r) \/ write_on (fd_out c) e \/
  (exists m, e = EvWarn m) \/ (exists m, e = EvStderr m).

(** The calls the relay loop may make. *)
Definition loop_event (c : console_client) (e : event) : Prop :=
  (exists p, e = EvPoll p) \/ tty_event c e \/ console_event c e.

(** A call that reads or sets the attributes of the terminal. *)
Definition terminal_call (e : event) : bool :=
  match e with
  | EvIsatty _ _ => false
  | EvTcgetattr _ _ => true
  | EvTcsetattr _ _ _ => true
  | _ => false
  end.

(** Proof steps used throughout: case analysis on the matches of a
    hypothesis, and inversion of equations between results. *)
Ltac break_match_in H :=
  repeat match type of H with
    | context [match ?x with _ => _ end] => destruct x eqn:?
    end.

Ltac some_inv :=
  repeat match goal with
    | H : Some _ = Some _ |- _ => inversion H; subst; clear H
    | H : None = Some _ |- _ => discriminate H
    | H : Some _ = None |- _ => discriminate H
    | H : (_, _) = (_, _) |- _ => inversion H; subst; clear H
    end.

(** * Properties *)

(** ** Arrays and buffers *)

Lemma index_of_nat {A : Type} (a : list A) (k : nat) :
  index a (Z.of_nat k) = nth_error a k.
Proof.
  unfold index.
  destruct (Z.ltb_spec (Z.of_nat k) 0) as [H | _]; [lia |].
  now rewrite Nat2Z.id.
Qed.

Lemma index_in_range {A : Type} (a : list A) (i : Z) :
  0 <= i < Z.of_nat (length a) -> exists x, index a i = Some x.
Proof.
  intros Hi.
  rewrite <- (Z2Nat.id i) by lia.
  rewrite index_of_nat.
  destruct (nth_error a (Z.to_nat i)) as [x |] eqn:E; [now exists x |].
  apply nth_error_None in E. lia.
Qed.

Lemma index_In {A : Type} (a : list A) (i : Z) (x : A) :
  index a i = Some x -> In x a.
Proof.
  unfold index. destruct (i <? 0); [discriminate |].
  apply nth_error_In.
Qed.

Lemma index_esc_str (p : Z) (e : byte) :
  index esc_str p = Some e ->
  (p = 0 /\ e = TILDE) \/ (p = 1 /\ e = DOT).
Proof.
  unfold index. destruct (Z.ltb_spec p 0) as [| Hp]; [discriminate |].
  intros H.
  destruct (Z.to_nat p) as [| [| k]] eqn:E; simpl in H.
  - left. split; [lia | congruence].
  - right. split; [lia | congruence].
  - destruct k; discriminate.
Qed.

Lemma take_in_range (n : Z) (buf : list byte) :
  0 <= n <= Z.of_nat (length buf) ->
  take n buf = Some (firstn (Z.to_nat n) buf).
Proof.
  intros [H0 H1]. unfold take.
  apply Z.leb_le in H0, H1. now rewrite H0, H1.
Qed.

Lemma take_all (buf : list byte) :
  take (Z.of_nat (length buf) - 0) buf = Some buf.
Proof.
  rewrite Z.sub_0_r, take_in_range by lia.
  now rewrite Nat2Z.id, firstn_all.
Qed.

(** ** What the system calls leave in the trace *)

Lemma read_trace (fd : Z) (w : world) :
  w_trace (snd (read fd w)) = w_trace w ++ [EvRead fd (fst (read fd w))].
Proof.
  unfold read.
  destruct (fd =? STDIN_FILENO);
    [destruct (pop_read (w_tty_in w)) | destruct (pop_read (w_con_in w))];
    reflexivity.
Qed.

Lemma write_trace (fd : Z) (bs : list byte) (w : world) :
  exists o, w_trace (snd (write_buf_to_fd fd bs w)) = w_trace w ++ [EvWrite fd bs o].
Proof.
  unfold write_buf_to_fd.
  destruct (w_wr w) as [| [| k] q]; eexists; reflexivity.
Qed.

Lemma write_succeeds (fd : Z) (bs : list byte) (w : world) :
  writes_succeed w ->
  write_buf_to_fd fd bs w
  = (0, emit (EvWrite fd bs WrOk) (set_wr (tl (w_wr w)) w)).
Proof.
  unfold writes_succeed, write_buf_to_fd. intros H.
  destruct w as [st t ts ti ci wr tr]; simpl in *.
  destruct wr as [| o q]; [reflexivity |].
  inversion H; subst. reflexivity.
Qed.

Lemma sent_to_app (fd : Z) (t1 t2 : list event) :
  sent_to fd (t1 ++ t2) = sent_to fd t1 ++ sent_to fd t2.
Proof. apply flat_map_app. Qed.

(** ** One turn of the scanning loop *)

Lemma index_esc_str_0 : index esc_str 0 = Some TILDE.
Proof. reflexivity. Qed.

Lemma index_esc_str_1 : index esc_str 1 = Some DOT.
Proof. reflexivity. Qed.

Lemma scan_byte_defined (buf : list byte) (i : Z) (c : console_client) (w : world) :
  pos_in_esc_str c ->
  0 <= i < Z.of_nat (length buf) ->
  exists r, scan_byte buf i c w = Some r.
Proof.
  unfold pos_in_esc_str. change ARRAY_SIZE_esc_str with 2.
  intros Hp Hi. unfold scan_byte.
  destruct (index_in_range buf i Hi) as [b ->].
  destruct (Byte.eqb b CR); [eauto |].
  destruct (newline c); simpl negb; cbv iota; [| eauto].
  assert (Hc : esc_str_pos c = 0 \/ esc_str_pos c = 1) by lia.
  destruct Hc as [E | E]; rewrite E.
  - rewrite index_esc_str_0.
    destruct (Byte.eqb b TILDE); cbv zeta.
    + cbn [esc_str_pos set_esc_str_pos].
      change (0 + 1 =? ARRAY_SIZE_esc_str) with false. eauto.
    + change (0 =? 0) with true. eauto.
  - rewrite index_esc_str_1.
    destruct (Byte.eqb b DOT); cbv zeta.
    + cbn [esc_str_pos set_esc_str_pos].
      change (1 + 1 =? ARRAY_SIZE_esc_str) with true. cbv iota.
      change (1 + 1) with 2.
      destruct (Z.gtb_spec i 2); [| eauto].
      rewrite take_in_range by lia. eauto.
    + change (1 =? 0) with false. cbv iota.
      change (take 1 esc_str) with (Some [TILDE]). eauto.
Qed.

(** A turn that goes on leaves the position inside [esc_str]; a turn that
    returns has just moved it to the end of [esc_str]. *)
Lemma scan_byte_pos (buf : list byte) (i : Z) (c : console_client) (w : world)
  (r : scan_step) :
  scan_byte buf i c w = Some r ->
  match r with
  | Continue c' _ =>
      pos_in_esc_str c' \/ (c' = set_newline true c) \/ c' = c
  | Return c' _ =>
      pos_in_esc_str c /\ esc_str_pos c' = ARRAY_SIZE_esc_str /\ newline c' = true
  end.
Proof.
  unfold pos_in_esc_str. change ARRAY_SIZE_esc_str with 2.
  intros H. unfold scan_byte in H.
  destruct (index buf i) as [b |]; [| discriminate].
  destruct (Byte.eqb b CR); [some_inv; auto |].
  destruct (newline c) eqn:Hn; simpl in H; [| some_inv; auto].
  destruct (index esc_str (esc_str_pos c)) as [e |] eqn:He; [| discriminate].
  apply index_esc_str in He.
  destruct (Byte.eqb b e).
  - cbn in H. change ARRAY_SIZE_esc_str with 2 in H.
    destruct (Z.eqb_spec (esc_str_pos c + 1) 2) as [E | E].
    + break_match_in H; some_inv; cbn; repeat split; auto; lia.
    + some_inv. left. cbn. lia.
  - break_match_in H; some_inv; left; cbn; lia.
Qed.

Lemma scan_byte_keeps_pos_in_esc_str (buf : list byte) (i : Z)
  (c : console_client) (w : world) (c' : console_client) (w' : world) :
  pos_in_esc_str c ->
  scan_byte buf i c w = Some (Continue c' w') ->
  pos_in_esc_str c'.
Proof.
  intros Hp H. apply scan_byte_pos in H.
  destruct H as [H | [-> | ->]]; auto.
Qed.

Lemma scan_byte_pending_after_newline (buf : list byte) (i : Z)
  (c : console_client) (w : world) (r : scan_step) :
  pending_after_newline c ->
  scan_byte buf i c w = Some r ->
  pending_after_newline (step_client r).
Proof.
  unfold pending_after_newline. intros Hinv H. unfold scan_byte in H.
  destruct (index buf i) as [b |]; [| discriminate].
  destruct (Byte.eqb b CR); [some_inv; auto |].
  destruct (newline c) eqn:Hn; simpl in H;
    [| some_inv; cbn; rewrite Hn; exact Hinv].
  break_match_in H; some_inv; cbn; auto; lia.
Qed.

Lemma scan_byte_same_session (buf : list byte) (i : Z) (c : console_client)
  (w : world) (r : scan_step) :
  scan_byte buf i c w = Some r ->
  same_session c (step_client r).
Proof.
  unfold same_session, scan_byte. intros H.
  break_match_in H; some_inv; cbn; auto.
Qed.

Lemma scanning_pos_in_esc_str (c : console_client) :
  scanning c -> pos_in_esc_str c.
Proof.
  induction 1 as [c [Hp _] | c buf i w c' w' _ IH H].
  - unfold pos_in_esc_str. rewrite Hp. change ARRAY_SIZE_esc_str with 2. lia.
  - eapply scan_byte_keeps_pos_in_esc_str; eauto.
Qed.

Lemma scanning_pending_after_newline (c : console_client) :
  scanning c -> pending_after_newline c.
Proof.
  induction 1 as [c [Hp _] | c buf i w c' w' _ IH H].
  - unfold pending_after_newline. lia.
  - apply (scan_byte_pending_after_newline _ _ _ _ _ IH H).
Qed.

Lemma same_session_refl (c : console_client) : same_session c c.
Proof. unfold same_session. auto. Qed.

Lemma same_session_trans (c1 c2 c3 : console_client) :
  same_session c1 c2 -> same_session c2 c3 -> same_session c1 c3.
Proof.
  unfold same_session.
  intros (A1 & A2 & A3 & A4 & A5) (B1 & B2 & B3 & B4 & B5).
  repeat split; congruence.
Qed.

Lemma scan_byte_trace (buf : list byte) (i : Z) (c : console_client)
  (w : world) (r : scan_step) :
  scan_byte buf i c w = Some r ->
  exists t, w_trace (step_world r) = w_trace w ++ t.
Proof.
  unfold scan_byte. intros H.
  break_match_in H; some_inv; cbn [step_world];
    try (exists []; now rewrite app_nil_r);
    match goal with
    | |- context [write_buf_to_fd ?fd ?bs ?w0] =>
        destruct (write_trace fd bs w0) as [o ->]; eauto
    end.
Qed.

(** ** The whole loop over a chunk *)

Lemma tty_loop_trace (n : nat) :
  forall (buf : list byte) (i : Z) (c : console_client) (w : world) (r : scan_step),
    tty_loop n buf i c w = Some r ->
    exists t, w_trace (step_world r) = w_trace w ++ t.
Proof.
  induction n as [| n IH]; intros buf i c w r H; simpl in H.
  - some_inv. exists []. now rewrite app_nil_r.
  - destruct (scan_byte buf i c w) as [[c1 w1 | c1 w1] |] eqn:E; [| | discriminate].
    + destruct (scan_byte_trace _ _ _ _ _ E) as [t1 Ht1].
      destruct (IH _ _ _ _ _ H) as [t2 Ht2]. cbn in Ht1.
      exists (t1 ++ t2). now rewrite Ht2, Ht1, app_assoc.
    + some_inv. apply (scan_byte_trace _ _ _ _ _ E).
Qed.

Lemma tty_loop_same_session (n : nat) :
  forall (buf : list byte) (i : Z) (c : console_client) (w : world) (r : scan_step),
    tty_loop n buf i c w = Some r ->
    same_session c (step_client r).
Proof.
  induction n as [| n IH]; intros buf i c w r H; simpl in H.
  - some_inv. apply same_session_refl.
  - destruct (scan_byte buf i c w) as [[c1 w1 | c1 w1] |] eqn:E; [| | discriminate].
    + eapply same_session_trans; [apply (scan_byte_same_session _ _ _ _ _ E) |].
      apply (IH _ _ _ _ _ H).
    + some_inv. apply (scan_byte_same_session _ _ _ _ _ E).
Qed.

(** From a state of the scanner the loop over a chunk is defined: it either
    runs to the end of the chunk, in a state of the scanner again, or returns
    with the position at the end of [esc_str]. *)
Lemma tty_loop_scanning (n : nat) :
  forall (buf : list byte) (i : Z) (c : console_client) (w : world),
    scanning c ->
    0 <= i -> i + Z.of_nat n <= Z.of_nat (length buf) ->
    exists r, tty_loop n buf i c w = Some r /\
      match r with
      | Continue c' _ => scanning c'
      | Return c' _ => esc_str_pos c' = ARRAY_SIZE_esc_str /\ newline c' = true
      end.
Proof.
  induction n as [| n IH]; intros buf i c w Hs Hi Hn; simpl.
  - eauto.
  - destruct (scan_byte_defined buf i c w) as [r Hr];
      [now apply scanning_pos_in_esc_str | lia |].
    rewrite Hr. destruct r as [c1 w1 | c1 w1].
    + apply IH; [| lia | lia].
      eapply scanning_next; eauto.
    + exists (Return c1 w1). split; [reflexivity |].
      apply scan_byte_pos in Hr. tauto.
Qed.

(** ** [process_tty] as a whole *)

Lemma process_tty_scanning (c : console_client) (w : world) :
  scanning c ->
  exists rc c' w',
    process_tty c w = Some (rc, c', w') /\
    ((rc = PROCESS_EXIT /\ esc_str_pos c' = ARRAY_SIZE_esc_str /\ newline c' = true)
     \/ scanning c').
Proof.
  intros Hs. unfold process_tty.
  destruct (read (fd_in c) w) as [[| buf] w1]; [eauto 7 |].
  destruct (Z.eqb_spec (Z.of_nat (length buf)) 0) as [| Hlen]; [eauto 7 |].
  destruct (tty_loop_scanning (length buf) buf 0 c w1 Hs) as [r [Hr Hc]];
    [lia | lia |].
  rewrite Hr. destruct r as [c2 w2 | c2 w2]; [| eauto 8].
  pose proof (scanning_pos_in_esc_str _ Hc) as Hp.
  unfold pos_in_esc_str in Hp. change ARRAY_SIZE_esc_str with 2 in Hp.
  rewrite take_in_range by lia.
  destruct (write_buf_to_fd (console_sd c2) _ w2) as [rc w3].
  destruct (rc <? 0); eauto 7.
Qed.

Lemma process_tty_same_session (c : console_client) (w : world)
  (rc : process_rc) (c' : console_client) (w' : world) :
  process_tty c w = Some (rc, c', w') ->
  same_session c c'.
Proof.
  unfold process_tty. intros H.
  destruct (read (fd_in c) w) as [[| buf] w1];
    [some_inv; apply same_session_refl |].
  destruct (Z.of_nat (length buf) =? 0); [some_inv; apply same_session_refl |].
  destruct (tty_loop (length buf) buf 0 c w1) as [r |] eqn:E; [| discriminate].
  apply tty_loop_same_session in E.
  destruct r as [c2 w2 | c2 w2]; [| some_inv; exact E].
  destruct (take _ buf); [| discriminate].
  destruct (write_buf_to_fd (console_sd c2) l w2) as [rc3 w3].
  destruct (rc3 <? 0); some_inv; exact E.
Qed.

(** [process_tty] starts with its [read] on the terminal, and whatever else
    it does comes after it in the trace. *)
Lemma process_tty_trace (c : console_client) (w : world)
  (rc : process_rc) (c' : console_client) (w' : world) :
  process_tty c w = Some (rc, c', w') ->
  exists r t, w_trace w' = w_trace w ++ EvRead (fd_in c) r :: t.
Proof.
  unfold process_tty. intros H.
  pose proof (read_trace (fd_in c) w) as Hr.
  destruct (read (fd_in c) w) as [r w1]. cbn [fst snd] in Hr.
  exists r.
  destruct r as [| buf]; [some_inv; now exists [] |].
  destruct (Z.of_nat (length buf) =? 0); [some_inv; now exists [] |].
  destruct (tty_loop (length buf) buf 0 c w1) as [s |] eqn:E; [| discriminate].
  destruct (tty_loop_trace _ _ _ _ _ _ E) as [t Ht]. rewrite Hr in Ht.
  destruct s as [c2 w2 | c2 w2]; cbn [step_world] in Ht.
  - destruct (take _ buf) as [bs |]; [| discriminate].
    destruct (write_trace (console_sd c2) bs w2) as [o Ho].
    destruct (write_buf_to_fd (console_sd c2) bs w2) as [rc3 w3].
    cbn [snd] in Ho.
    exists (t ++ [EvWrite (console_sd c2) bs o]).
    destruct (rc3 <? 0); some_inv; rewrite Ho, Ht, <- !app_assoc; reflexivity.
  - some_inv. exists t. rewrite Ht, <- app_assoc. reflexivity.
Qed.

(** [process_console] starts with its [read] on the socket. *)
Lemma process_console_trace (c : console_client) (w : world) :
  exists r t,
    w_trace (snd (process_console c w)) = w_trace w ++ EvRead (console_sd c) r :: t.
Proof.
  unfold process_console.
  pose proof (read_trace (console_sd c) w) as Hr.
  destruct (read (console_sd c) w) as [r w1]. cbn [fst snd] in Hr.
  exists r.
  destruct r as [| buf].
  - eexists. cbn. rewrite Hr, <- app_assoc. reflexivity.
  - destruct (Z.of_nat (length buf) =? 0).
    + eexists. cbn. rewrite Hr, <- app_assoc. reflexivity.
    + destruct (write_trace (fd_out c) buf w1) as [o Ho].
      destruct (write_buf_to_fd (fd_out c) buf w1) as [rc w2].
      cbn [snd] in *. eexists. rewrite Ho, Hr, <- app_assoc. reflexivity.
Qed.

(** ** A stream without carriage return *)

Lemma not_CR (buf : list byte) (i : Z) (b : byte) :
  ~ In CR buf -> index buf i = Some b -> Byte.eqb b CR = false.
Proof.
  intros Hn Hb. destruct (Byte.eqb b CR) eqn:E; [| reflexivity].
  apply byte_dec_bl in E. subst b. apply index_In in Hb. contradiction.
Qed.

Lemma tty_loop_plain (n : nat) :
  forall (buf : list byte) (i : Z) (c : console_client) (w : world),
    newline c = false ->
    ~ In CR buf ->
    0 <= i -> i + Z.of_nat n <= Z.of_nat (length buf) ->
    tty_loop n buf i c w = Some (Continue c w).
Proof.
  induction n as [| n IH]; intros buf i c w Hnl Hcr Hi Hn; simpl.
  - reflexivity.
  - unfold scan_byte.
    destruct (index_in_range buf i) as [b Hb]; [lia |].
    rewrite Hb, (not_CR _ _ _ Hcr Hb), Hnl. simpl.
    apply IH; auto; lia.
Qed.

Lemma process_tty_plain (c : console_client) (w : world) (ch : list byte)
  (q : list read_result) :
  scan_initial c ->
  fd_in c = STDIN_FILENO ->
  plain_chunk ch ->
  w_tty_in w = RdData ch :: q ->
  writes_succeed w ->
  exists w',
    process_tty c w = Some (PROCESS_OK, c, w') /\
    w_tty_in w' = q /\ writes_succeed w' /\
    w_trace w' = w_trace w ++ [EvRead STDIN_FILENO (RdData ch);
                               EvWrite (console_sd c) ch WrOk].
Proof.
  intros [Hp Hnl] Hfd (Hne & Hlen & Hcr) Hq Hw.
  unfold process_tty, read. rewrite Hfd, Z.eqb_refl, Hq. unfold pop_read.
  rewrite (proj2 (Nat.leb_le _ _) Hlen).
  destruct (Z.eqb_spec (Z.of_nat (length ch)) 0) as [E | _].
  { destruct ch; [congruence | simpl in E; lia]. }
  rewrite tty_loop_plain; auto; try lia.
  rewrite Hp, take_all.
  rewrite write_succeeds.
  2:{ unfold writes_succeed in *. exact Hw. }
  change (0 <? 0) with false. cbv iota.
  eexists. split; [reflexivity |]. cbn.
  repeat split.
  - unfold writes_succeed in *. cbn.
    destruct (w_wr w) as [| o l]; [constructor |].
    now inversion Hw.
  - now rewrite <- app_assoc.
Qed.

(** A boolean test of [plain_chunk]. *)
Lemma plain_chunk_by_test (ch : list byte) :
  negb (Nat.eqb (length ch) 0) && Nat.leb (length ch) BUFSZ
  && negb (existsb (Byte.eqb CR) ch) = true ->
  plain_chunk ch.
Proof.
  intros H. apply andb_prop in H. destruct H as [H H3].
  apply andb_prop in H. destruct H as [H1 H2].
  repeat split.
  - intros ->. discriminate H1.
  - now apply Nat.leb_le.
  - intros Hin. apply negb_true_iff in H3.
    assert (E : existsb (Byte.eqb CR) ch = true).
    { apply existsb_exists. exists CR. split; [exact Hin | now apply byte_dec_lb]. }
    congruence.
Qed.

(** C4: a byte stream without carriage return, fed from the initial state
    of the scanner in chunks cut at any place, is forwarded to the socket
    whole and unchanged, and every call returns [PROCESS_OK]: no detach is
    reported. *)
Theorem plain_stream_is_forwarded_whole (chunks : list (list byte)) :
  forall (c : console_client) (w : world) (q : list read_result),
    scan_initial c ->
    fd_in c = STDIN_FILENO ->
    Forall plain_chunk chunks ->
    w_tty_in w = map RdData chunks ++ q ->
    writes_succeed w ->
    exists w',
      tty_calls (length chunks) c w
      = Some (repeat PROCESS_OK (length chunks), c, w') /\
      sent_to (console_sd c) (w_trace w')
      = sent_to (console_sd c) (w_trace w) ++ concat chunks.
Proof.
  induction chunks as [| ch chunks IH]; intros c w q Hi Hfd Hall Hq Hw.
  - exists w. split; [reflexivity |]. simpl. now rewrite app_nil_r.
  - inversion Hall as [| ? ? Hch Hrest]; subst.
    destruct (process_tty_plain c w ch (map RdData chunks ++ q))
      as (w1 & Hcall & Hq1 & Hw1 & Htr); auto.
    destruct (IH c w1 q Hi Hfd Hrest Hq1 Hw1) as (w' & Hcalls & Hsent).
    exists w'. split.
    + simpl. rewrite Hcall, Hcalls. reflexivity.
    + rewrite Hsent, Htr, sent_to_app. simpl.
      rewrite Z.eqb_refl, app_nil_r, <- app_assoc. reflexivity.
Qed.

(** An instance: 'a' '~' | '.' | 'b' 'x', three chunks of a stream without
    carriage return. *)
Lemma plain_stream_is_forwarded_whole_witness :
  exists w',
    tty_calls 3 session_client
      (tty_world [[LOWER_A; TILDE]; [DOT]; [LOWER_B; LOWER_X]])
    = Some ([PROCESS_OK; PROCESS_OK; PROCESS_OK], session_client, w') /\
    sent_to 3 (w_trace w') = [LOWER_A; TILDE; DOT; LOWER_B; LOWER_X].
Proof.
  apply (plain_stream_is_forwarded_whole
           [[LOWER_A; TILDE]; [DOT]; [LOWER_B; LOWER_X]]
           session_client
           (tty_world [[LOWER_A; TILDE]; [DOT]; [LOWER_B; LOWER_X]]) []).
  - split; reflexivity.
  - reflexivity.
  - repeat (apply Forall_cons; [apply plain_chunk_by_test; reflexivity |]).
    apply Forall_nil.
  - reflexivity.
  - constructor.
Defined.

(** ** The escape inside one chunk *)

(** The turn that completes the escape at index [i] was entered with the
    position at 1 on a '.', and its flush hands the first [i - 2] bytes of
    the buffer to the socket when [i] is above 2, and nothing otherwise. *)
Lemma scan_byte_return (buf : list byte) (i : Z) (c : console_client)
  (w : world) (c' : console_client) (w' : world) :
  scan_byte buf i c w = Some (Return c' w') ->
  esc_str_pos c = 1 /\ index buf i = Some DOT /\
  c' = set_esc_str_pos 2 c /\
  w' = (if i >? 2
        then snd (write_buf_to_fd (console_sd c)
                    (firstn (Z.to_nat (i - 2)) buf) w)
        else w).
Proof.
  unfold scan_byte. intros H.
  destruct (index buf i) as [b |] eqn:Hb; [| discriminate].
  destruct (Byte.eqb b CR); [discriminate |].
  destruct (negb (newline c)); [discriminate |].
  destruct (index esc_str (esc_str_pos c)) as [e |] eqn:He; [| discriminate].
  apply index_esc_str in He.
  destruct (Byte.eqb b e) eqn:Hbe; [| break_match_in H; discriminate].
  apply byte_dec_bl in Hbe. subst e.
  cbn [esc_str_pos set_esc_str_pos console_sd] in H.
  change ARRAY_SIZE_esc_str with 2 in H.
  destruct He as [[Hp ->] | [Hp ->]]; rewrite Hp in H |- *.
  - discriminate H.
  - change ((1 + 1) =? 2) with true in H. change (1 + 1) with 2 in H.
    cbv iota in H.
    destruct (i >? 2).
    + unfold take in H.
      destruct ((0 <=? i - 2) && (i - 2 <=? Z.of_nat (length buf)));
        [| discriminate].
      some_inv. auto.
    + some_inv. auto.
Qed.

(** C1: the chunk '\r' '~' '.' read in the initial state makes [process_tty]
    return [PROCESS_EXIT] with the escape withheld, but the '\r' before the
    escape does not reach the socket either: the flush before the escape
    writes [i - esc_str_pos] bytes, one less than the bytes that precede the
    match, and nothing when [i] is not above 2.  With two more bytes in
    front, 'a' 'b' '\r' '~' '.', only 'a' 'b' reaches the socket. *)
Theorem detach_flush_is_one_byte_short :
  observe (process_tty session_client (tty_world [[CR; TILDE; DOT]]))
  = Some (PROCESS_EXIT, (2, true), [])
  /\
  observe (process_tty session_client
             (tty_world [[LOWER_A; LOWER_B; CR; TILDE; DOT]]))
  = Some (PROCESS_EXIT, (2, true), [LOWER_A; LOWER_B]).
Proof. split; vm_compute; reflexivity. Qed.

(** C2: the chunk '\r' '~' 'x' read in the initial state is no detach and
    leaves the scanner in its initial state, but the socket receives
    '~' '\r' '~' 'x': the flush of the false start writes the '~' at once,
    and the write that ends the call sends the whole chunk, '~' included.
    When the '~' came with an earlier chunk the socket receives '\r' '~' 'x',
    and a '\r' '~' '.' that follows detaches. *)
Theorem false_start_in_one_chunk_repeats_tilde :
  observe (process_tty session_client (tty_world [[CR; TILDE; LOWER_X]]))
  = Some (PROCESS_OK, (0, false), [TILDE; CR; TILDE; LOWER_X])
  /\
  observe (tty_calls 2 session_client (tty_world [[CR; TILDE]; [LOWER_X]]))
  = Some ([PROCESS_OK; PROCESS_OK], (0, false), [CR; TILDE; LOWER_X])
  /\
  observe (tty_calls 2 session_client
             (tty_world [[CR; TILDE; LOWER_X]; [CR; TILDE; DOT]]))
  = Some ([PROCESS_OK; PROCESS_EXIT], (2, true), [TILDE; CR; TILDE; LOWER_X]).
Proof. repeat split; vm_compute; reflexivity. Qed.

(** ** The escape across chunks *)

(** C3: when '\r' '~' '.' arrives as '\r' '~' then '.', or one byte per
    chunk, the position 1 and the newline flag are carried from call to
    call, the last call returns [PROCESS_EXIT], the '~' is never forwarded
    and the socket receives '\r'.  The same bytes in one chunk leave the
    socket with nothing, so the two do not agree. *)
Theorem split_escape_differs_from_single_chunk :
  observe (tty_calls 1 session_client (tty_world [[CR; TILDE]; [DOT]]))
  = Some ([PROCESS_OK], (1, true), [CR])
  /\
  observe (tty_calls 2 session_client (tty_world [[CR; TILDE]; [DOT]]))
  = Some ([PROCESS_OK; PROCESS_EXIT], (2, true), [CR])
  /\
  observe (tty_calls 2 session_client (tty_world [[CR]; [TILDE]; [DOT]]))
  = Some ([PROCESS_OK; PROCESS_OK], (1, true), [CR])
  /\
  observe (tty_calls 3 session_client (tty_world [[CR]; [TILDE]; [DOT]]))
  = Some ([PROCESS_OK; PROCESS_OK; PROCESS_EXIT], (2, true), [CR])
  /\
  observe (tty_calls 1 session_client (tty_world [[CR; TILDE; DOT]]))
  = Some ([PROCESS_EXIT], (2, true), []).
Proof. repeat split; vm_compute; reflexivity. Qed.

(** ** Writes that fail *)

(** The write that ends [process_tty] is checked. *)
Lemma process_tty_final_write_checked (c : console_client) (w : world)
  (buf : list byte) (w1 : world) (c2 : console_client) (w2 : world)
  (bs : list byte) :
  read (fd_in c) w = (RdData buf, w1) ->
  buf <> [] ->
  tty_loop (length buf) buf 0 c w1 = Some (Continue c2 w2) ->
  take (Z.of_nat (length buf) - esc_str_pos c2) buf = Some bs ->
  fst (write_buf_to_fd (console_sd c2) bs w2) < 0 ->
  process_tty c w
  = Some (PROCESS_ERR, c2, snd (write_buf_to_fd (console_sd c2) bs w2)).
Proof.
  intros Hr Hne Hl Ht Hf. unfold process_tty. rewrite Hr.
  destruct (Z.eqb_spec (Z.of_nat (length buf)) 0) as [E | _].
  { destruct buf; [congruence | simpl in E; lia]. }
  rewrite Hl, Ht.
  destruct (write_buf_to_fd (console_sd c2) bs w2) as [rc w3].
  cbn [fst snd] in *. apply Z.ltb_lt in Hf. now rewrite Hf.
Qed.

(** C6: two writes of [process_tty] are not checked.  When the flush before
    a completed escape fails ('a' 'b' '\r' '~' '.', the write of 'a' 'b'
    failing), the call returns [PROCESS_EXIT]; when the flush of a false
    start fails ('\r' '~' 'x', the write of '~' failing), the call goes on
    and returns [PROCESS_OK]; [main] then ends with [EXIT_SUCCESS] on the
    first.  Only the write that ends the call returns [PROCESS_ERR] on
    failure. *)
Theorem unchecked_flushes_in_process_tty :
  calls_made (process_tty session_client
                (fresh_world tty_startup
                   [RdData [LOWER_A; LOWER_B; CR; TILDE; DOT]] [] [WrFail 0]))
  = Some (PROCESS_EXIT,
          [EvRead 0 (RdData [LOWER_A; LOWER_B; CR; TILDE; DOT]);
           EvWrite 3 [LOWER_A; LOWER_B] (WrFail 0)])
  /\
  calls_made (process_tty session_client
                (fresh_world tty_startup
                   [RdData [CR; TILDE; LOWER_X]] [] [WrFail 0]))
  = Some (PROCESS_OK,
          [EvRead 0 (RdData [CR; TILDE; LOWER_X]);
           EvWrite 3 [TILDE] (WrFail 0);
           EvWrite 3 [CR; TILDE; LOWER_X] WrOk])
  /\
  option_map fst
    (main [PollReady true false]
       (fresh_world tty_startup
          [RdData [LOWER_A; LOWER_B; CR; TILDE; DOT]] [] [WrFail 0]))
  = Some (Some EXIT_SUCCESS)
  /\
  calls_made (process_tty session_client
                (fresh_world tty_startup [RdData [LOWER_X]] [] [WrFail 0]))
  = Some (PROCESS_ERR,
          [EvRead 0 (RdData [LOWER_X]); EvWrite 3 [LOWER_X] (WrFail 0)]).
Proof. repeat split; vm_compute; reflexivity. Qed.

(** ** The scanner's position and its newline flag *)

Lemma tty_calls_scanning (n : nat) :
  forall (c : console_client) (w : world),
    scanning c ->
    exists rcs c' w',
      tty_calls n c w = Some (rcs, c', w') /\
      0 <= esc_str_pos c' <= ARRAY_SIZE_esc_str /\
      pending_after_newline c'.
Proof.
  assert (Hin : forall c, scanning c ->
            0 <= esc_str_pos c <= ARRAY_SIZE_esc_str /\ pending_after_newline c).
  { intros c Hs. split; [| now apply scanning_pending_after_newline].
    apply scanning_pos_in_esc_str in Hs. unfold pos_in_esc_str in Hs. lia. }
  assert (Hend : forall c, esc_str_pos c = ARRAY_SIZE_esc_str -> newline c = true ->
            0 <= esc_str_pos c <= ARRAY_SIZE_esc_str /\ pending_after_newline c).
  { intros c Hp Hn. split; [| intros _; exact Hn].
    rewrite Hp. change ARRAY_SIZE_esc_str with 2. lia. }
  induction n as [| n IH]; intros c w Hs; simpl.
  - exists [], c, w. split; [reflexivity | auto].
  - destruct (process_tty_scanning c w Hs) as (rc & c1 & w1 & Hcall & Hc).
    rewrite Hcall.
    destruct Hc as [(-> & Hp & Hn) | Hs1].
    + exists [PROCESS_EXIT], c1, w1. split; [reflexivity | auto].
    + destruct rc.
      * destruct (IH c1 w1 Hs1) as (rcs & c2 & w2 & Hcalls & Hb).
        rewrite Hcalls. eauto 6.
      * exists [PROCESS_ERR], c1, w1. split; [reflexivity | auto].
      * exists [PROCESS_EXIT], c1, w1. split; [reflexivity | auto].
Qed.

(** C8: in every state the scanner reaches from the initial one,
    [esc_str_pos] is an index inside [esc_str]; a turn of the loop on any
    byte is defined, and either goes on with the position still inside
    [esc_str] or has moved it to 2, and then it is the turn that returns,
    which ends the loop over the chunk at once; [process_tty] is defined,
    leaves the position in [0, 2], and returns [PROCESS_EXIT] whenever the
    position is 2, so that the loop of [main] makes no further call; any
    number of successive calls is defined and leaves the position in
    [0, 2]. *)
Theorem esc_str_pos_stays_in_range (c : console_client) :
  scanning c ->
  pos_in_esc_str c
  /\ (forall buf i w, 0 <= i < Z.of_nat (length buf) ->
        exists r, scan_byte buf i c w = Some r /\
          match r with
          | Continue c' _ => pos_in_esc_str c'
          | Return c' _ => esc_str_pos c' = ARRAY_SIZE_esc_str
          end)
  /\ (forall buf i w c' w' n,
        scan_byte buf i c w = Some (Return c' w') ->
        tty_loop (S n) buf i c w = Some (Return c' w'))
  /\ (forall w, exists rc c' w',
        process_tty c w = Some (rc, c', w') /\
        0 <= esc_str_pos c' <= ARRAY_SIZE_esc_str /\
        (esc_str_pos c' = ARRAY_SIZE_esc_str -> rc = PROCESS_EXIT) /\
        (rc = PROCESS_OK -> scanning c'))
  /\ (forall n w, exists rcs c' w',
        tty_calls n c w = Some (rcs, c', w') /\
        0 <= esc_str_pos c' <= ARRAY_SIZE_esc_str).
Proof.
  intros Hs. pose proof (scanning_pos_in_esc_str c Hs) as Hp.
  split; [exact Hp |]. split; [| split; [| split]].
  - intros buf i w Hi.
    destruct (scan_byte_defined buf i c w Hp Hi) as [r Hr].
    exists r. split; [exact Hr |].
    destruct r as [c' w' | c' w'].
    + eapply scan_byte_keeps_pos_in_esc_str; eauto.
    + apply scan_byte_pos in Hr. tauto.
  - intros buf i w c' w' n Hr. simpl. now rewrite Hr.
  - intros w.
    destruct (process_tty_scanning c w Hs) as (rc & c' & w' & Hcall & Hc).
    exists rc, c', w'. split; [exact Hcall |].
    destruct Hc as [(-> & Hp' & _) | Hs'].
    + rewrite Hp'. change ARRAY_SIZE_esc_str with 2.
      repeat split; try lia; discriminate.
    + apply scanning_pos_in_esc_str in Hs' as Hp'.
      unfold pos_in_esc_str in Hp'. repeat split; try lia; auto.
  - intros n w.
    destruct (tty_calls_scanning n c w Hs) as (rcs & c' & w' & H & Hb & _).
    eauto.
Qed.

(** An instance: the state after '\r' '~', position 1 with the newline flag
    set. *)
Lemma esc_str_pos_stays_in_range_witness :
  pos_in_esc_str (set_esc_str_pos 1 (set_newline true session_client))
  /\ exists rcs c' w',
       tty_calls 2 (set_esc_str_pos 1 (set_newline true session_client))
         (tty_world [[CR]; [DOT; LOWER_X]])
       = Some (rcs, c', w') /\
       0 <= esc_str_pos c' <= ARRAY_SIZE_esc_str.
Proof.
  assert (Hs : scanning (set_esc_str_pos 1 (set_newline true session_client))).
  { apply (scanning_next (set_newline true session_client) [TILDE] 0
             (tty_world []) _ (tty_world [])); [| reflexivity].
    apply (scanning_next session_client [CR] 0
             (tty_world []) _ (tty_world [])); [| reflexivity].
    apply scanning_start. split; reflexivity. }
  split.
  - apply (esc_str_pos_stays_in_range _ Hs).
  - apply (esc_str_pos_stays_in_range _ Hs).
Defined.

(** C10: in every state the scanner reaches from the initial one, a
    position above 0 comes with the newline flag set; this holds between
    any two bytes (after any turn of the loop, the returning one included)
    and when [process_tty] returns, whatever it returns. *)
Theorem partial_match_only_after_newline (c : console_client) :
  scanning c ->
  pending_after_newline c
  /\ (forall buf i w r,
        scan_byte buf i c w = Some r -> pending_after_newline (step_client r))
  /\ (forall w rc c' w',
        process_tty c w = Some (rc, c', w') -> pending_after_newline c')
  /\ (forall n w rcs c' w',
        tty_calls n c w = Some (rcs, c', w') -> pending_after_newline c').
Proof.
  intros Hs. pose proof (scanning_pending_after_newline c Hs) as Hinv.
  split; [exact Hinv |]. split; [| split].
  - intros buf i w r Hr.
    apply (scan_byte_pending_after_newline _ _ _ _ _ Hinv Hr).
  - intros w rc c' w' Hcall.
    destruct (process_tty_scanning c w Hs) as (rc0 & c0 & w0 & Hcall0 & Hc).
    rewrite Hcall in Hcall0. some_inv.
    destruct Hc as [(_ & _ & Hn) | Hs'].
    + intros _. exact Hn.
    + now apply scanning_pending_after_newline.
  - intros n w rcs c' w' Hcalls.
    destruct (tty_calls_scanning n c w Hs) as (rcs0 & c0 & w0 & H0 & _ & Hinv').
    rewrite Hcalls in H0. some_inv. exact Hinv'.
Qed.

(** An instance: the state after '\r' '~'. *)
Lemma partial_match_only_after_newline_witness :
  pending_after_newline (set_esc_str_pos 1 (set_newline true session_client)).
Proof.
  apply (partial_match_only_after_newline
           (set_esc_str_pos 1 (set_newline true session_client))).
  apply (scanning_next (set_newline true session_client) [TILDE] 0
           (tty_world []) _ (tty_world [])); [| reflexivity].
  apply (scanning_next session_client [CR] 0
           (tty_world []) _ (tty_world [])); [| reflexivity].
  apply scanning_start. split; reflexivity.
Defined.

(** ** One cycle of the relay loop *)

Lemma process_rc_eqb_eq (a b : process_rc) :
  process_rc_eqb a b = true <-> a = b.
Proof. destruct a, b; simpl; split; congruence. Qed.

(** C5: in a cycle in which [poll] reports both descriptors ready,
    [process_tty] runs first: its [read] on the terminal is the first call
    after [poll].  When it returns a status other than [PROCESS_OK] the
    cycle and the loop end in the very world it left, with no call of
    [process_console]; when it returns [PROCESS_OK], [process_console] runs
    next, starting with its [read] on the socket. *)
Theorem tty_is_served_before_console (polls : list poll_result)
  (prc : process_rc) (c : console_client) (w : world)
  (prc1 : process_rc) (c1 : console_client) (w1 : world) :
  process_tty c (emit (EvPoll (PollReady true true)) w) = Some (prc1, c1, w1) ->
  (exists r t,
      w_trace w1
      = (w_trace w ++ [EvPoll (PollReady true true)]) ++ EvRead (fd_in c) r :: t)
  /\ (prc1 <> PROCESS_OK ->
      main_loop_body true true prc c (emit (EvPoll (PollReady true true)) w)
      = Some (prc1, c1, w1)
      /\ main_loop (PollReady true true :: polls) prc c w
         = Some (BreakStatus prc1
                   (if process_rc_eqb prc1 PROCESS_ERR then -1 else 0),
                 c1, w1))
  /\ (prc1 = PROCESS_OK ->
      main_loop_body true true prc c (emit (EvPoll (PollReady true true)) w)
      = Some (fst (process_console c1 w1), c1, snd (process_console c1 w1))
      /\ exists r t,
           w_trace (snd (process_console c1 w1))
           = w_trace w1 ++ EvRead (console_sd c1) r :: t).
Proof.
  intros Htty. split; [| split].
  - apply process_tty_trace in Htty. exact Htty.
  - intros Hne.
    assert (E : process_rc_eqb prc1 PROCESS_OK = false)
      by (destruct prc1; [congruence | reflexivity | reflexivity]).
    assert (Hbody : main_loop_body true true prc c
                      (emit (EvPoll (PollReady true true)) w)
                    = Some (prc1, c1, w1)).
    { unfold main_loop_body. rewrite Htty, E. reflexivity. }
    split; [exact Hbody |].
    simpl. rewrite Hbody, E. reflexivity.
  - intros ->. split.
    + unfold main_loop_body. rewrite Htty. simpl.
      destruct (process_console c1 w1). reflexivity.
    + apply process_console_trace.
Qed.

(** An instance: both descriptors ready, the terminal delivering the
    escape; the byte waiting on the socket is left unread. *)
Lemma tty_is_served_before_console_witness :
  main_loop [PollReady true true; PollReady true true] PROCESS_OK session_client
    (fresh_world tty_startup [RdData [CR; TILDE; DOT]] [RdData [LOWER_X]] [])
  = Some (BreakStatus PROCESS_EXIT 0,
          set_esc_str_pos 2 (set_newline true session_client),
          {| w_start := tty_startup;
             w_termios := {| t_flags := 1; t_raw := false |};
             w_tcset := []; w_tty_in := []; w_con_in := [RdData [LOWER_X]];
             w_wr := [];
             w_trace := [EvPoll (PollReady true true);
                         EvRead 0 (RdData [CR; TILDE; DOT])] |}).
Proof.
  refine (proj2 (proj1 (proj2
    (tty_is_served_before_console [PollReady true true] PROCESS_OK
       session_client
       (fresh_world tty_startup [RdData [CR; TILDE; DOT]] [RdData [LOWER_X]] [])
       PROCESS_EXIT _ _ _)) _)).
  - reflexivity.
  - discriminate.
Defined.

(** ** Leaving the loop *)

Lemma main_loop_body_same_session (r0 r1 : bool) (prc : process_rc)
  (c : console_client) (w : world) (prc' : process_rc) (c' : console_client)
  (w' : world) :
  main_loop_body r0 r1 prc c w = Some (prc', c', w') ->
  same_session c c'.
Proof.
  unfold main_loop_body. intros H.
  destruct r0.
  - destruct (process_tty c w) as [[[prc1 c1] w1] |] eqn:E; [| discriminate].
    apply process_tty_same_session in E.
    destruct (process_rc_eqb prc1 PROCESS_OK && r1);
      [destruct (process_console c1 w1) |]; some_inv; exact E.
  - destruct (process_rc_eqb prc PROCESS_OK && r1);
      [destruct (process_console c w) |]; some_inv; apply same_session_refl.
Qed.

(** However the loop is left, the descriptors, the tty flag and the saved
    attributes are those it started with, and the values of [prc] and [rc]
    are one of three pairs. *)
Lemma main_loop_end (polls : list poll_result) :
  forall (c : console_client) (w : world) (e : loop_end)
         (c' : console_client) (w' : world),
    main_loop polls PROCESS_OK c w = Some (e, c', w') ->
    same_session c c' /\
    (e = Blocked \/ e = BreakPoll PROCESS_OK (-1) \/
     e = BreakStatus PROCESS_ERR (-1) \/ e = BreakStatus PROCESS_EXIT 0).
Proof.
  induction polls as [| p polls IH]; intros c w e c' w' H; simpl in H.
  - some_inv. split; [apply same_session_refl | auto].
  - destruct p as [| r0 r1].
    + some_inv. split; [apply same_session_refl | auto].
    + destruct (main_loop_body r0 r1 PROCESS_OK c _) as [[[prc1 c1] w1] |] eqn:E;
        [| discriminate].
      apply main_loop_body_same_session in E.
      destruct prc1; simpl in H.
      * apply IH in H. destruct H as [Hs He].
        split; [eapply same_session_trans; eauto | exact He].
      * some_inv. auto.
      * some_inv. auto.
Qed.

Lemma tcsetattr_spec (fd : Z) (t : termios) (w : world) :
  exists rc,
    w_trace (snd (tcsetattr fd t w)) = w_trace w ++ [EvTcsetattr fd t rc] /\
    fst (tcsetattr fd t w) = rc /\
    (rc = 0 -> w_termios (snd (tcsetattr fd t w)) = t).
Proof.
  unfold tcsetattr.
  destruct (w_tcset w) as [| rc q].
  - exists 0. auto.
  - destruct (Z.eqb_spec rc 0) as [-> | Hrc].
    + exists 0. auto.
    + exists rc. cbn. repeat split. intros; contradiction.
Qed.

Lemma client_init_ok (c : console_client) (w : world) (c1 : console_client)
  (w1 : world) :
  client_init c w = (0, c1, w1) ->
  c1 = set_console_sd (st_socket (w_start w)) c /\
  w_start w1 = w_start w /\ w_termios w1 = w_termios w.
Proof.
  unfold client_init. intros H.
  break_match_in H; some_inv; try discriminate. auto.
Qed.

Lemma client_tty_init_ok (c : console_client) (w : world) (c2 : console_client)
  (w2 : world) :
  client_tty_init c w = (0, c2, w2) ->
  console_sd c2 = console_sd c /\
  fd_in c2 = STDIN_FILENO /\
  is_tty c2 = st_isatty (w_start w) /\
  (is_tty c2 = true -> orig_termios c2 = w_termios w).
Proof.
  unfold client_tty_init. intros H.
  cbn [is_tty set_tty_fds fd_in] in H.
  destruct (st_isatty (w_start w)) eqn:Ht; simpl in H.
  - destruct (negb _); [discriminate |].
    destruct (tcsetattr _ _ _) as [rc2 w3].
    destruct (negb _); [discriminate |].
    some_inv. cbn. auto.
  - some_inv. cbn. repeat split; auto. discriminate.
Qed.

(** [main], once both set-up calls have succeeded, ends as its loop ends,
    through [client_fini]. *)
Lemma main_after_setup (polls : list poll_result) (w : world)
  (c1 : console_client) (w1 : world) (c2 : console_client) (w2 : world)
  (code : Z) (w' : world) :
  client_init zero_client w = (0, c1, w1) ->
  client_tty_init c1 w1 = (0, c2, w2) ->
  main polls w = Some (Some code, w') ->
  exists e c3 w3 prc rc,
    main_loop polls PROCESS_OK c2 w2 = Some (e, c3, w3) /\
    loop_vars e = Some (prc, rc) /\
    code = exit_status rc /\
    w' = client_fini c3 w3.
Proof.
  intros H1 H2 Hm. unfold main in Hm. rewrite H1 in Hm. simpl in Hm.
  rewrite H2 in Hm. simpl in Hm.
  destruct (main_loop polls PROCESS_OK c2 w2) as [[[e c3] w3] |];
    [| discriminate].
  destruct e as [prc rc | prc rc |]; some_inv;
    do 5 eexists; repeat split; reflexivity.
Qed.

(** ** Exit codes *)

Lemma process_tty_zero_read (c : console_client) (w wr : world) :
  read (fd_in c) w = (RdData [], wr) ->
  process_tty c w = Some (PROCESS_EXIT, c, wr).
Proof. intros H. unfold process_tty. rewrite H. reflexivity. Qed.

Lemma process_console_zero_read (c : console_client) (w wr : world) :
  read (console_sd c) w = (RdData [], wr) ->
  process_console c w
  = (PROCESS_EXIT, emit (EvStderr ("Connection closed" ++ newline_char)) wr).
Proof. intros H. unfold process_console. rewrite H. reflexivity. Qed.

(** C7, as the claim has it, fails: when [poll] fails the loop is left
    with [prc] equal to [PROCESS_OK], not [PROCESS_ERR], and [rc] is
    negative, which gives the failure exit code. *)
Lemma poll_failure_exits_with_failure :
  ~ failure_only_on_process_err [PollErr] session_client (tty_world []).
Proof.
  intros H.
  specialize (H (BreakPoll PROCESS_OK (-1)) _ _ PROCESS_OK (-1) eq_refl eq_refl).
  destruct H as [H _]. specialize (H eq_refl). discriminate H.
Qed.

(** C7, amended: a zero-byte read on the terminal makes [process_tty]
    return [PROCESS_EXIT]; a zero-byte read on the socket makes
    [process_console] print "Connection closed" and return [PROCESS_EXIT];
    either one ends the loop with [PROCESS_EXIT]; and a session that ends
    exits with the success code exactly when its loop ended with
    [PROCESS_EXIT] (end of input, closed connection or detach), and with the
    failure code exactly when the loop ended with [PROCESS_ERR] or was left
    because [poll] failed. *)
Theorem exit_code_follows_the_end_of_the_loop (polls : list poll_result)
  (w : world) (c1 : console_client) (w1 : world) (c2 : console_client)
  (w2 : world) (code : Z) (w' : world) :
  client_init zero_client w = (0, c1, w1) ->
  client_tty_init c1 w1 = (0, c2, w2) ->
  main polls w = Some (Some code, w') ->
  (exists e c3 w3,
      main_loop polls PROCESS_OK c2 w2 = Some (e, c3, w3) /\
      ((e = BreakStatus PROCESS_EXIT 0 /\ code = EXIT_SUCCESS) \/
       (e = BreakStatus PROCESS_ERR (-1) /\ code = EXIT_FAILURE) \/
       (e = BreakPoll PROCESS_OK (-1) /\ code = EXIT_FAILURE)))
  /\ (forall c w0 wr,
        read (fd_in c) w0 = (RdData [], wr) ->
        process_tty c w0 = Some (PROCESS_EXIT, c, wr))
  /\ (forall c w0 wr,
        read (console_sd c) w0 = (RdData [], wr) ->
        process_console c w0
        = (PROCESS_EXIT, emit (EvStderr ("Connection closed" ++ newline_char)) wr))
  /\ (forall ps r1 c w0 wr,
        read (fd_in c) (emit (EvPoll (PollReady true r1)) w0) = (RdData [], wr) ->
        main_loop (PollReady true r1 :: ps) PROCESS_OK c w0
        = Some (BreakStatus PROCESS_EXIT 0, c, wr))
  /\ (forall ps c w0 wr,
        read (console_sd c) (emit (EvPoll (PollReady false true)) w0)
        = (RdData [], wr) ->
        main_loop (PollReady false true :: ps) PROCESS_OK c w0
        = Some (BreakStatus PROCESS_EXIT 0, c,
                emit (EvStderr ("Connection closed" ++ newline_char)) wr)).
Proof.
  intros H1 H2 Hm. split; [| split; [| split; [| split]]].
  - destruct (main_after_setup _ _ _ _ _ _ _ _ H1 H2 Hm)
      as (e & c3 & w3 & prc & rc & Hloop & Hv & -> & _).
    exists e, c3, w3. split; [exact Hloop |].
    apply main_loop_end in Hloop.
    destruct Hloop as [_ [-> | [-> | [-> | ->]]]];
      simpl in Hv; some_inv; auto.
  - apply process_tty_zero_read.
  - apply process_console_zero_read.
  - intros ps r1 c w0 wr Hr. simpl. unfold main_loop_body.
    rewrite (process_tty_zero_read _ _ _ Hr). reflexivity.
  - intros ps c w0 wr Hr. simpl. unfold main_loop_body. simpl.
    rewrite (process_console_zero_read _ _ _ Hr). reflexivity.
Qed.

(** An instance: one byte each way, then the socket is closed. *)
Lemma exit_code_follows_the_end_of_the_loop_witness :
  exists e c3 w3,
    main_loop [PollReady true true; PollReady false true] PROCESS_OK
      (set_orig_termios {| t_flags := 1; t_raw := false |}
         (set_tty_fds STDIN_FILENO STDOUT_FILENO true
            (set_console_sd 3 zero_client)))
      {| w_start := tty_startup;
         w_termios := {| t_flags := 1; t_raw := true |};
         w_tcset := []; w_tty_in := [RdData [LOWER_X]];
         w_con_in := [RdData [LOWER_A]]; w_wr := [];
         w_trace := [EvSocket 3; EvConnect 3 0; EvIsatty 0 true;
                     EvTcgetattr 0 0;
                     EvTcsetattr 0 {| t_flags := 1; t_raw := true |} 0] |}
    = Some (e, c3, w3) /\
    ((e = BreakStatus PROCESS_EXIT 0 /\ EXIT_SUCCESS = EXIT_SUCCESS) \/
     (e = BreakStatus PROCESS_ERR (-1) /\ EXIT_SUCCESS = EXIT_FAILURE) \/
     (e = BreakPoll PROCESS_OK (-1) /\ EXIT_SUCCESS = EXIT_FAILURE)).
Proof.
  refine (proj1
    (exit_code_follows_the_end_of_the_loop
       [PollReady true true; PollReady false true]
       (fresh_world tty_startup [RdData [LOWER_X]] [RdData [LOWER_A]] [])
       _ _ _ _ EXIT_SUCCESS _ _ _ _)).
  - reflexivity.
  - reflexivity.
  - vm_compute. reflexivity.
Defined.

(** ** Tear-down *)






(** * Further properties of the code *)

(** ** Buffers made of parts *)

Lemma index_app_l {A : Type} (p s : list A) (j : Z) :
  0 <= j < Z.of_nat (length p) -> index (p ++ s) j = index p j.
Proof.
  intros Hj. unfold index.
  destruct (Z.ltb_spec j 0); [lia |].
  apply nth_error_app1. lia.
Qed.

Lemma index_app_r {A : Type} (p s : list A) (k : Z) :
  0 <= k -> index (p ++ s) (Z.of_nat (length p) + k) = index s k.
Proof.
  intros Hk. unfold index.
  destruct (Z.ltb_spec (Z.of_nat (length p) + k) 0); [lia |].
  destruct (Z.ltb_spec k 0); [lia |].
  rewrite nth_error_app2 by lia. f_equal. lia.
Qed.

Lemma byte_eqb_neq (a b : byte) : a <> b -> Byte.eqb a b = false.
Proof.
  intros H. destruct (Byte.eqb a b) eqn:E; [| reflexivity].
  apply byte_dec_bl in E. contradiction.
Qed.

Lemma set_newline_same (c : console_client) (b : bool) :
  newline c = b -> set_newline b c = c.
Proof. destruct c. simpl. intros ->. reflexivity. Qed.

(** ** The turns of the scanning loop, case by case *)

Lemma scan_byte_cr (buf : list byte) (i : Z) (c : console_client) (w : world) :
  index buf i = Some CR ->
  scan_byte buf i c w = Some (Continue (set_newline true c) w).
Proof. intros H. unfold scan_byte. rewrite H. reflexivity. Qed.

Lemma scan_byte_idle (buf : list byte) (i : Z) (c : console_client) (w : world)
  (b : byte) :
  index buf i = Some b -> b <> CR -> newline c = false ->
  scan_byte buf i c w = Some (Continue c w).
Proof.
  intros H Hb Hn. unfold scan_byte.
  rewrite H, (byte_eqb_neq _ _ Hb), Hn. reflexivity.
Qed.

Lemma scan_byte_tilde (buf : list byte) (i : Z) (c : console_client) (w : world) :
  index buf i = Some TILDE -> newline c = true -> esc_str_pos c = 0 ->
  scan_byte buf i c w = Some (Continue (set_esc_str_pos 1 c) w).
Proof.
  intros H Hn Hp. unfold scan_byte.
  rewrite H, Hn, Hp. reflexivity.
Qed.

Lemma scan_byte_dot (buf : list byte) (i : Z) (c : console_client) (w : world) :
  index buf i = Some DOT -> scan_pending c ->
  0 <= i <= Z.of_nat (length buf) ->
  scan_byte buf i c w
  = Some (Return (set_esc_str_pos 2 c)
            (if i >? 2
             then snd (write_buf_to_fd (console_sd c)
                         (firstn (Z.to_nat (i - 2)) buf) w)
             else w)).
Proof.
  intros H [Hp Hn] Hi. unfold scan_byte.
  rewrite H, Hn, Hp. change (Byte.eqb DOT CR) with false. cbv iota.
  simpl negb. cbv iota. rewrite index_esc_str_1.
  change (Byte.eqb DOT DOT) with true. cbv iota zeta.
  cbn [esc_str_pos set_esc_str_pos console_sd].
  change ((1 + 1) =? ARRAY_SIZE_esc_str) with true. cbv iota.
  change (1 + 1) with 2.
  destruct (Z.gtb_spec i 2); [| reflexivity].
  rewrite take_in_range by lia. reflexivity.
Qed.

Lemma scan_byte_false_start (buf : list byte) (i : Z) (c : console_client)
  (w : world) (b : byte) :
  index buf i = Some b -> b <> CR -> b <> DOT -> scan_pending c ->
  scan_byte buf i c w
  = Some (Continue (set_newline false (set_esc_str_pos 0 c))
            (snd (write_buf_to_fd (console_sd c) [TILDE] w))).
Proof.
  intros H Hcr Hdot [Hp Hn]. unfold scan_byte.
  rewrite H, (byte_eqb_neq _ _ Hcr), Hn, Hp. simpl negb. cbv iota.
  rewrite index_esc_str_1, (byte_eqb_neq _ _ Hdot). reflexivity.
Qed.

(** ** The loop over a part of the chunk *)

Lemma tty_loop_app (n m : nat) :
  forall (buf : list byte) (i : Z) (c : console_client) (w : world),
    tty_loop (n + m) buf i c w
    = match tty_loop n buf i c w with
      | Some (Continue c' w') => tty_loop m buf (i + Z.of_nat n) c' w'
      | r => r
      end.
Proof.
  induction n as [| n IH]; intros buf i c w.
  - simpl. now rewrite Z.add_0_r.
  - change (S n + m)%nat with (S (n + m)). cbn [tty_loop].
    destruct (scan_byte buf i c w) as [[c1 w1 | c1 w1] |]; [| reflexivity ..].
    rewrite IH. replace (i + 1 + Z.of_nat n) with (i + Z.of_nat (S n)) by lia.
    reflexivity.
Qed.

Lemma tty_loop_plain_prefix (n : nat) :
  forall (p s : list byte) (i : Z) (c : console_client) (w : world),
    newline c = false ->
    ~ In CR p ->
    0 <= i -> i + Z.of_nat n <= Z.of_nat (length p) ->
    tty_loop n (p ++ s) i c w = Some (Continue c w).
Proof.
  induction n as [| n IH]; intros p s i c w Hnl Hcr Hi Hn; [reflexivity |].
  cbn [tty_loop].
  destruct (index_in_range p i) as [b Hb]; [lia |].
  assert (Hb' : index (p ++ s) i = Some b) by (rewrite index_app_l; [exact Hb | lia]).
  rewrite (scan_byte_idle _ _ _ _ b Hb'); auto.
  - apply IH; auto; lia.
  - intros ->. apply index_In in Hb. contradiction.
Qed.

Lemma tty_loop_crs (n : nat) :
  forall (buf : list byte) (i : Z) (c : console_client) (w : world),
    newline c = true ->
    (forall j, i <= j < i + Z.of_nat n -> index buf j = Some CR) ->
    tty_loop n buf i c w = Some (Continue c w).
Proof.
  induction n as [| n IH]; intros buf i c w Hnl Hcr; [reflexivity |].
  cbn [tty_loop]. rewrite scan_byte_cr by (apply Hcr; lia).
  rewrite (set_newline_same c true Hnl).
  apply IH; [exact Hnl |]. intros j Hj. apply Hcr. lia.
Qed.

(** ** Reads and writes that go through *)

Lemma read_tty_chunk (fd : Z) (w : world) (buf : list byte)
  (q : list read_result) :
  fd = STDIN_FILENO ->
  w_tty_in w = RdData buf :: q ->
  (length buf <= BUFSZ)%nat ->
  exists w1,
    read fd w = (RdData buf, w1) /\
    w_tty_in w1 = q /\ w_con_in w1 = w_con_in w /\ w_wr w1 = w_wr w /\
    w_trace w1 = w_trace w ++ [EvRead STDIN_FILENO (RdData buf)].
Proof.
  intros -> Hq Hlen. unfold read. rewrite Z.eqb_refl, Hq. unfold pop_read.
  rewrite (proj2 (Nat.leb_le _ _) Hlen).
  eexists. split; [reflexivity |]. cbn. auto.
Qed.

Lemma read_console_chunk (fd : Z) (w : world) (buf : list byte)
  (q : list read_result) :
  fd <> STDIN_FILENO ->
  w_con_in w = RdData buf :: q ->
  (length buf <= BUFSZ)%nat ->
  exists w1,
    read fd w = (RdData buf, w1) /\
    w_con_in w1 = q /\ w_tty_in w1 = w_tty_in w /\ w_wr w1 = w_wr w /\
    w_trace w1 = w_trace w ++ [EvRead fd (RdData buf)].
Proof.
  intros Hfd Hq Hlen. unfold read.
  destruct (Z.eqb_spec fd STDIN_FILENO) as [| _]; [contradiction |].
  rewrite Hq. unfold pop_read. rewrite (proj2 (Nat.leb_le _ _) Hlen).
  eexists. split; [reflexivity |]. cbn. auto.
Qed.

Lemma write_goes_through (fd : Z) (bs : list byte) (w : world) :
  writes_succeed w ->
  exists w',
    write_buf_to_fd fd bs w = (0, w') /\
    writes_succeed w' /\
    w_tty_in w' = w_tty_in w /\ w_con_in w' = w_con_in w /\
    w_trace w' = w_trace w ++ [EvWrite fd bs WrOk].
Proof.
  intros Hw. rewrite (write_succeeds fd bs w Hw).
  eexists. split; [reflexivity |]. cbn. repeat split.
  unfold writes_succeed in *. cbn.
  destruct (w_wr w) as [| o l]; [constructor | now inversion Hw].
Qed.

Lemma writes_succeed_same (w w' : world) :
  w_wr w' = w_wr w -> writes_succeed w -> writes_succeed w'.
Proof. unfold writes_succeed. now intros ->. Qed.

Lemma nonempty_length (buf : list byte) :
  buf <> [] -> (Z.of_nat (length buf) =? 0) = false.
Proof.
  intros H. apply Z.eqb_neq. destruct buf; [congruence | simpl; lia].
Qed.

Lemma sent_to_write (fd : Z) (tr : list event) (bs : list byte) :
  sent_to fd (tr ++ [EvWrite fd bs WrOk]) = sent_to fd tr ++ bs.
Proof.
  rewrite sent_to_app. simpl. now rewrite Z.eqb_refl, app_nil_r.
Qed.

Lemma sent_to_read (fd fd' : Z) (tr : list event) (r : read_result) :
  sent_to fd (tr ++ [EvRead fd' r]) = sent_to fd tr.
Proof. rewrite sent_to_app. simpl. now rewrite app_nil_r. Qed.

Lemma sent_to_read_write (fd fd' : Z) (tr : list event) (r : read_result)
  (bs : list byte) :
  sent_to fd (tr ++ [EvRead fd' r; EvWrite fd bs WrOk]) = sent_to fd tr ++ bs.
Proof.
  rewrite sent_to_app. simpl. now rewrite Z.eqb_refl, app_nil_r.
Qed.

Lemma firstn_length_app (p s : list byte) :
  firstn (length p) (p ++ s) = p.
Proof.
  rewrite <- (Nat.add_0_r (length p)), firstn_app_2. simpl.
  now rewrite app_nil_r.
Qed.

(** The end of [process_tty] when the loop ran through and the write goes
    through. *)
Lemma process_tty_runs_through (c : console_client) (w w1 : world)
  (buf : list byte) (c2 : console_client) (w2 : world) :
  read (fd_in c) w = (RdData buf, w1) ->
  buf <> [] ->
  tty_loop (length buf) buf 0 c w1 = Some (Continue c2 w2) ->
  0 <= esc_str_pos c2 <= Z.of_nat (length buf) ->
  writes_succeed w2 ->
  exists w',
    process_tty c w = Some (PROCESS_OK, c2, w') /\
    writes_succeed w' /\
    w_tty_in w' = w_tty_in w2 /\
    w_trace w'
    = w_trace w2
      ++ [EvWrite (console_sd c2)
            (firstn (Z.to_nat (Z.of_nat (length buf) - esc_str_pos c2)) buf)
            WrOk].
Proof.
  intros Hr Hne Hl Hp Hw. unfold process_tty.
  rewrite Hr, (nonempty_length _ Hne), Hl, take_in_range by lia.
  destruct (write_goes_through (console_sd c2)
              (firstn (Z.to_nat (Z.of_nat (length buf) - esc_str_pos c2)) buf)
              w2 Hw) as (w' & Hwr & Hw' & Hti & _ & Htr).
  rewrite Hwr. change (0 <? 0) with false. cbv iota.
  exists w'. auto.
Qed.

(** ** A partial match at the end of a chunk *)

(** The call on a chunk that ends in '\r' '~'. *)
Lemma process_tty_tilde_at_end (c : console_client) (w : world)
  (p : list byte) (q : list read_result) :
  scan_initial c ->
  fd_in c = STDIN_FILENO ->
  ~ In CR p ->
  (length (p ++ [CR; TILDE]) <= BUFSZ)%nat ->
  w_tty_in w = RdData (p ++ [CR; TILDE]) :: q ->
  writes_succeed w ->
  exists c' w',
    process_tty c w = Some (PROCESS_OK, c', w') /\
    scan_pending c' /\ same_session c c' /\
    w_tty_in w' = q /\ writes_succeed w' /\
    w_trace w'
    = w_trace w ++ [EvRead STDIN_FILENO (RdData (p ++ [CR; TILDE]));
                    EvWrite (console_sd c) (p ++ [CR]) WrOk].
Proof.
  intros [Hp Hnl] Hfd Hcr Hlen Hq Hw.
  destruct (read_tty_chunk (fd_in c) w _ q Hfd Hq Hlen)
    as (w1 & Hr & Hq1 & _ & Hwr1 & Htr1).
  set (buf := p ++ [CR; TILDE]) in *.
  assert (Hl : tty_loop (length buf) buf 0 c w1
               = Some (Continue (set_esc_str_pos 1 (set_newline true c)) w1)).
  { unfold buf at 1. rewrite length_app. rewrite tty_loop_app.
    unfold buf. rewrite tty_loop_plain_prefix; auto; try lia.
    rewrite Z.add_0_l. cbn [length tty_loop].
    rewrite scan_byte_cr
      by (rewrite <- (Z.add_0_r (Z.of_nat (length p))), index_app_r by lia;
          reflexivity).
    rewrite scan_byte_tilde;
      [reflexivity | rewrite index_app_r by lia; reflexivity
       | reflexivity | exact Hp]. }
  destruct (process_tty_runs_through c w w1 buf
              (set_esc_str_pos 1 (set_newline true c)) w1 Hr)
    as (w' & Hcall & Hw' & Hti & Htr);
    [unfold buf; now destruct p | exact Hl
     | cbn; unfold buf; rewrite length_app; simpl; lia
     | now apply (writes_succeed_same w) |].
  exists (set_esc_str_pos 1 (set_newline true c)), w'.
  split; [exact Hcall |]. split; [split; reflexivity |].
  split; [unfold same_session; cbn; auto |].
  split; [congruence |]. split; [exact Hw' |].
  rewrite Htr, Htr1. cbn [console_sd set_esc_str_pos set_newline esc_str_pos].
  rewrite <- app_assoc. cbn [app].
  unfold buf. rewrite length_app. cbn [length].
  replace (Z.to_nat (Z.of_nat (length p + 2) - 1)) with (length p + 1)%nat by lia.
  rewrite firstn_app_2. reflexivity.
Qed.

(** In the initial state, a chunk that ends in '\r' '~' after bytes without
    carriage return is forwarded without its last byte: the '~' is withheld,
    and the scanner is left with one byte of the escape matched. *)
Theorem tilde_at_chunk_end_is_withheld (c : console_client) (w : world)
  (p : list byte) (q : list read_result) :
  scan_initial c ->
  fd_in c = STDIN_FILENO ->
  ~ In CR p ->
  (length (p ++ [CR; TILDE]) <= BUFSZ)%nat ->
  w_tty_in w = RdData (p ++ [CR; TILDE]) :: q ->
  writes_succeed w ->
  exists c' w',
    process_tty c w = Some (PROCESS_OK, c', w') /\
    scan_pending c' /\ same_session c c' /\
    w_tty_in w' = q /\ writes_succeed w' /\
    sent_to (console_sd c) (w_trace w')
    = sent_to (console_sd c) (w_trace w) ++ p ++ [CR].
Proof.
  intros Hi Hfd Hcr Hlen Hq Hw.
  destruct (process_tty_tilde_at_end c w p q Hi Hfd Hcr Hlen Hq Hw)
    as (c' & w' & Hcall & Hpend & Hs & Hq' & Hw' & Htr).
  exists c', w'. repeat (split; [assumption |]).
  rewrite Htr. apply sent_to_read_write.
Qed.

Lemma tilde_at_chunk_end_is_withheld_witness :
  exists c' w',
    process_tty session_client (tty_world [[LOWER_A; LOWER_B; CR; TILDE]])
    = Some (PROCESS_OK, c', w') /\
    scan_pending c' /\ same_session session_client c' /\
    w_tty_in w' = [] /\ writes_succeed w' /\
    sent_to 3 (w_trace w') = [LOWER_A; LOWER_B; CR].
Proof.
  apply (tilde_at_chunk_end_is_withheld session_client
           (tty_world [[LOWER_A; LOWER_B; CR; TILDE]]) [LOWER_A; LOWER_B] []).
  - split; reflexivity.
  - reflexivity.
  - intros H. repeat (destruct H as [H | H]; [discriminate H |]). exact H.
  - apply Nat.leb_le. reflexivity.
  - reflexivity.
  - constructor.
Defined.

(** ** Completing the escape from a pending match *)

Lemma firstn_repeat_app (a : byte) (k : nat) :
  forall (n : nat) (s : list byte),
    (k <= n)%nat -> firstn k (repeat a n ++ s) = repeat a k.
Proof.
  induction k as [| k IH]; intros n s Hk; [reflexivity |].
  destruct n as [| n]; [lia |]. simpl. f_equal. apply IH. lia.
Qed.

Lemma index_repeat_app (a : byte) (n : nat) (s : list byte) (j : Z) :
  0 <= j < Z.of_nat n -> index (repeat a n ++ s) j = Some a.
Proof.
  intros Hj. rewrite index_app_l by (rewrite repeat_length; lia).
  unfold index. destruct (Z.ltb_spec j 0); [lia |].
  apply nth_error_repeat. lia.
Qed.

(** The call on carriage returns and a '.' with a '~' withheld. *)
Lemma process_tty_dot_when_pending (c : console_client) (w : world)
  (n : nat) (rest : list byte) (q : list read_result) :
  scan_pending c ->
  fd_in c = STDIN_FILENO ->
  (length (repeat CR n ++ DOT :: rest) <= BUFSZ)%nat ->
  w_tty_in w = RdData (repeat CR n ++ DOT :: rest) :: q ->
  writes_succeed w ->
  exists w',
    process_tty c w = Some (PROCESS_EXIT, set_esc_str_pos 2 c, w') /\
    w_trace w'
    = w_trace w
      ++ EvRead STDIN_FILENO (RdData (repeat CR n ++ DOT :: rest))
         :: (if (2 <? n)%nat
             then [EvWrite (console_sd c) (repeat CR (n - 2)) WrOk]
             else []).
Proof.
  intros Hpend Hfd Hlen Hq Hw.
  destruct (read_tty_chunk (fd_in c) w _ q Hfd Hq Hlen)
    as (w1 & Hr & _ & _ & Hwr1 & Htr1).
  set (buf := repeat CR n ++ DOT :: rest) in *.
  assert (Hblen : length buf = (n + S (length rest))%nat)
    by (unfold buf; rewrite length_app, repeat_length; reflexivity).
  unfold process_tty. rewrite Hr, nonempty_length
    by (unfold buf; destruct n; discriminate).
  rewrite Hblen, tty_loop_app.
  rewrite tty_loop_crs;
    [| apply Hpend | intros j Hj; apply index_repeat_app; lia].
  rewrite Z.add_0_l. cbn [tty_loop].
  rewrite scan_byte_dot; [| | exact Hpend | rewrite Hblen; lia].
  2:{ unfold buf.
      rewrite <- (Z.add_0_r (Z.of_nat n)).
      rewrite <- (repeat_length CR n) at 2.
      rewrite index_app_r by lia. reflexivity. }
  destruct (Z.gtb_spec (Z.of_nat n) 2) as [Hn | Hn].
  - destruct (write_goes_through (console_sd c)
                (firstn (Z.to_nat (Z.of_nat n - 2)) buf) w1)
      as (w2 & Hwr & _ & _ & _ & Htr2);
      [now apply (writes_succeed_same w) |].
    rewrite Hwr. cbn [snd]. exists w2. split; [reflexivity |].
    rewrite Htr2, Htr1, <- app_assoc. cbn [app].
    rewrite (proj2 (Nat.ltb_lt 2 n)) by lia.
    unfold buf. replace (Z.to_nat (Z.of_nat n - 2)) with (n - 2)%nat by lia.
    rewrite firstn_repeat_app by lia. reflexivity.
  - exists w1. split; [reflexivity |].
    rewrite Htr1. rewrite (proj2 (Nat.ltb_ge 2 n)) by lia. reflexivity.
Qed.

(** With a '~' withheld, carriage returns do not cancel the match: a chunk
    of [n] carriage returns, then '.', then anything, ends the session.  Of
    the whole chunk only the first [n - 2] carriage returns reach the
    socket; the '.' and what follows it never do. *)
Theorem dot_completes_pending_escape (c : console_client) (w : world)
  (n : nat) (rest : list byte) (q : list read_result) :
  scan_pending c ->
  fd_in c = STDIN_FILENO ->
  (length (repeat CR n ++ DOT :: rest) <= BUFSZ)%nat ->
  w_tty_in w = RdData (repeat CR n ++ DOT :: rest) :: q ->
  writes_succeed w ->
  exists w',
    process_tty c w = Some (PROCESS_EXIT, set_esc_str_pos 2 c, w') /\
    sent_to (console_sd c) (w_trace w')
    = sent_to (console_sd c) (w_trace w) ++ repeat CR (n - 2).
Proof.
  intros Hpend Hfd Hlen Hq Hw.
  destruct (process_tty_dot_when_pending c w n rest q Hpend Hfd Hlen Hq Hw)
    as (w' & Hcall & Htr).
  exists w'. split; [exact Hcall |].
  rewrite Htr, sent_to_app. f_equal. simpl.
  destruct (Nat.ltb_spec 2 n) as [Hn | Hn].
  - simpl. now rewrite Z.eqb_refl, !app_nil_r.
  - replace (n - 2)%nat with 0%nat by lia. reflexivity.
Qed.

Lemma dot_completes_pending_escape_witness :
  exists w',
    process_tty (set_esc_str_pos 1 (set_newline true session_client))
      (tty_world [[CR; CR; CR; DOT; LOWER_X]])
    = Some (PROCESS_EXIT,
            set_esc_str_pos 2 (set_esc_str_pos 1 (set_newline true session_client)),
            w') /\
    sent_to 3 (w_trace w') = [CR].
Proof.
  apply (dot_completes_pending_escape
           (set_esc_str_pos 1 (set_newline true session_client))
           (tty_world [[CR; CR; CR; DOT; LOWER_X]]) 3 [LOWER_X] []).
  - split; reflexivity.
  - reflexivity.
  - apply Nat.leb_le. reflexivity.
  - reflexivity.
  - constructor.
Defined.

(** ** A false start that began in an earlier chunk *)

(** With a '~' withheld from an earlier chunk, a chunk that starts with a
    byte other than '.' and carriage return, and has no carriage return
    after it, makes the socket receive the '~' and then the chunk, each byte
    once, and leaves the scanner in its initial state. *)
Theorem false_start_across_chunks (c : console_client) (w : world)
  (b : byte) (s : list byte) (q : list read_result) :
  scan_pending c ->
  fd_in c = STDIN_FILENO ->
  b <> CR -> b <> DOT -> ~ In CR s ->
  (length (b :: s) <= BUFSZ)%nat ->
  w_tty_in w = RdData (b :: s) :: q ->
  writes_succeed w ->
  exists c' w',
    process_tty c w = Some (PROCESS_OK, c', w') /\
    scan_initial c' /\ same_session c c' /\
    w_tty_in w' = q /\ writes_succeed w' /\
    sent_to (console_sd c) (w_trace w')
    = sent_to (console_sd c) (w_trace w) ++ TILDE :: b :: s.
Proof.
  intros Hpend Hfd Hb Hdot Hcr Hlen Hq Hw.
  destruct (read_tty_chunk (fd_in c) w _ q Hfd Hq Hlen)
    as (w1 & Hr & Hq1 & _ & Hwr1 & Htr1).
  destruct (write_goes_through (console_sd c) [TILDE] w1)
    as (w2 & Hwr & Hw2 & Hti2 & _ & Htr2);
    [now apply (writes_succeed_same w) |].
  set (c1 := set_newline false (set_esc_str_pos 0 c)).
  assert (Hl : tty_loop (length (b :: s)) (b :: s) 0 c w1
               = Some (Continue c1 w2)).
  { cbn [length tty_loop].
    rewrite (scan_byte_false_start _ _ _ _ b); auto.
    rewrite Hwr. cbn [snd].
    apply tty_loop_plain; [reflexivity | | lia | simpl length; lia].
    intros [E | E]; [congruence | contradiction]. }
  destruct (process_tty_runs_through c w w1 (b :: s) c1 w2 Hr)
    as (w' & Hcall & Hw' & Hti & Htr);
    [discriminate | exact Hl | cbn; lia | exact Hw2 |].
  exists c1, w'.
  split; [exact Hcall |]. split; [split; reflexivity |].
  split; [unfold same_session; cbn; auto |].
  split; [congruence |]. split; [exact Hw' |].
  rewrite Htr, Htr2, Htr1.
  change (console_sd c1) with (console_sd c).
  change (esc_str_pos c1) with 0.
  rewrite !sent_to_write, sent_to_read, Z.sub_0_r, Nat2Z.id, firstn_all.
  now rewrite <- app_assoc.
Qed.

Lemma false_start_across_chunks_witness :
  exists c' w',
    process_tty (set_esc_str_pos 1 (set_newline true session_client))
      (tty_world [[LOWER_X; DOT; TILDE]])
    = Some (PROCESS_OK, c', w') /\
    scan_initial c' /\
    same_session (set_esc_str_pos 1 (set_newline true session_client)) c' /\
    w_tty_in w' = [] /\ writes_succeed w' /\
    sent_to 3 (w_trace w') = [TILDE; LOWER_X; DOT; TILDE].
Proof.
  apply (false_start_across_chunks
           (set_esc_str_pos 1 (set_newline true session_client))
           (tty_world [[LOWER_X; DOT; TILDE]]) LOWER_X [DOT; TILDE] []).
  - split; reflexivity.
  - reflexivity.
  - discriminate.
  - discriminate.
  - intros H. repeat (destruct H as [H | H]; [discriminate H |]). exact H.
  - apply Nat.leb_le. reflexivity.
  - reflexivity.
  - constructor.
Defined.

(** ** The escape inside one chunk, in general *)

(** In the initial state, a chunk made of bytes [p] without carriage
    return, then '\r' '~' '.', then anything, ends the session, and the
    socket receives exactly [p]: neither the escape, nor what follows it,
    nor the carriage return before it. *)
Theorem escape_in_one_chunk (c : console_client) (w : world)
  (p rest : list byte) (q : list read_result) :
  scan_initial c ->
  fd_in c = STDIN_FILENO ->
  ~ In CR p ->
  (length (p ++ CR :: TILDE :: DOT :: rest) <= BUFSZ)%nat ->
  w_tty_in w = RdData (p ++ CR :: TILDE :: DOT :: rest) :: q ->
  writes_succeed w ->
  exists c' w',
    process_tty c w = Some (PROCESS_EXIT, c', w') /\
    esc_str_pos c' = 2 /\ same_session c c' /\
    sent_to (console_sd c) (w_trace w')
    = sent_to (console_sd c) (w_trace w) ++ p.
Proof.
  intros [Hp Hnl] Hfd Hcr Hlen Hq Hw.
  destruct (read_tty_chunk (fd_in c) w _ q Hfd Hq Hlen)
    as (w1 & Hr & _ & _ & Hwr1 & Htr1).
  set (buf := p ++ CR :: TILDE :: DOT :: rest) in *.
  assert (Hblen : length buf = (length p + S (S (S (length rest))))%nat)
    by (unfold buf; rewrite length_app; reflexivity).
  assert (H0 : index buf (Z.of_nat (length p)) = Some CR).
  { replace (Z.of_nat (length p)) with (Z.of_nat (length p) + 0) by lia.
    unfold buf. rewrite index_app_r by lia. reflexivity. }
  assert (H1 : index buf (Z.of_nat (length p) + 1) = Some TILDE).
  { unfold buf. rewrite index_app_r by lia. reflexivity. }
  assert (H2 : index buf (Z.of_nat (length p) + 1 + 1) = Some DOT).
  { replace (Z.of_nat (length p) + 1 + 1) with (Z.of_nat (length p) + 2) by lia.
    unfold buf. rewrite index_app_r by lia. reflexivity. }
  unfold process_tty. rewrite Hr, nonempty_length
    by (unfold buf; destruct p; discriminate).
  rewrite Hblen, tty_loop_app.
  unfold buf at 1. rewrite tty_loop_plain_prefix; auto; try lia.
  fold buf. rewrite Z.add_0_l. cbn [tty_loop].
  rewrite (scan_byte_cr _ _ _ _ H0).
  rewrite (scan_byte_tilde _ _ _ _ H1); [| reflexivity | exact Hp].
  rewrite (scan_byte_dot _ _ _ _ H2);
    [| split; reflexivity | rewrite Hblen; lia].
  cbn [console_sd set_esc_str_pos set_newline].
  destruct (Z.gtb_spec (Z.of_nat (length p) + 1 + 1) 2) as [Hn | Hn].
  - destruct (write_goes_through (console_sd c)
                (firstn (Z.to_nat (Z.of_nat (length p) + 1 + 1 - 2)) buf) w1)
      as (w2 & Hwr & _ & _ & _ & Htr2);
      [now apply (writes_succeed_same w) |].
    rewrite Hwr. cbn [snd]. do 2 eexists. split; [reflexivity |].
    split; [reflexivity |]. split; [unfold same_session; cbn; auto |].
    rewrite Htr2, Htr1, sent_to_write, sent_to_read. f_equal.
    replace (Z.to_nat (Z.of_nat (length p) + 1 + 1 - 2)) with (length p) by lia.
    apply firstn_length_app.
  - do 2 eexists. split; [reflexivity |].
    split; [reflexivity |]. split; [unfold same_session; cbn; auto |].
    rewrite Htr1, sent_to_read.
    assert (p = []) as -> by (destruct p; [reflexivity | simpl in Hn; lia]).
    now rewrite app_nil_r.
Qed.

Lemma escape_in_one_chunk_witness :
  exists c' w',
    process_tty session_client
      (tty_world [[LOWER_A; LOWER_B; CR; TILDE; DOT; LOWER_X]])
    = Some (PROCESS_EXIT, c', w') /\
    esc_str_pos c' = 2 /\ same_session session_client c' /\
    sent_to 3 (w_trace w') = [LOWER_A; LOWER_B].
Proof.
  apply (escape_in_one_chunk session_client
           (tty_world [[LOWER_A; LOWER_B; CR; TILDE; DOT; LOWER_X]])
           [LOWER_A; LOWER_B] [LOWER_X] []).
  - split; reflexivity.
  - reflexivity.
  - intros H. repeat (destruct H as [H | H]; [discriminate H |]). exact H.
  - apply Nat.leb_le. reflexivity.
  - reflexivity.
  - constructor.
Defined.

(** ** The escape cut after the carriage return *)

(** A chunk without carriage return but for its last byte is forwarded
    whole and arms the scanner. *)
Lemma line_arms_the_scanner (c : console_client) (w : world)
  (p : list byte) (q : list read_result) :
  scan_initial c ->
  fd_in c = STDIN_FILENO ->
  ~ In CR p ->
  (length (p ++ [CR]) <= BUFSZ)%nat ->
  w_tty_in w = RdData (p ++ [CR]) :: q ->
  writes_succeed w ->
  exists c' w',
    process_tty c w = Some (PROCESS_OK, c', w') /\
    scan_armed c' /\ same_session c c' /\
    w_tty_in w' = q /\ writes_succeed w' /\
    sent_to (console_sd c) (w_trace w')
    = sent_to (console_sd c) (w_trace w) ++ p ++ [CR].
Proof.
  intros [Hp Hnl] Hfd Hcr Hlen Hq Hw.
  destruct (read_tty_chunk (fd_in c) w _ q Hfd Hq Hlen)
    as (w1 & Hr & Hq1 & _ & Hwr1 & Htr1).
  set (buf := p ++ [CR]) in *.
  assert (Hl : tty_loop (length buf) buf 0 c w1
               = Some (Continue (set_newline true c) w1)).
  { unfold buf at 1. rewrite length_app, tty_loop_app.
    unfold buf. rewrite tty_loop_plain_prefix; auto; try lia.
    rewrite Z.add_0_l. cbn [length tty_loop].
    rewrite scan_byte_cr
      by (rewrite <- (Z.add_0_r (Z.of_nat (length p))), index_app_r by lia;
          reflexivity).
    reflexivity. }
  destruct (process_tty_runs_through c w w1 buf (set_newline true c) w1 Hr)
    as (w' & Hcall & Hw' & Hti & Htr);
    [unfold buf; now destruct p | exact Hl
     | cbn; rewrite Hp; lia
     | now apply (writes_succeed_same w) |].
  exists (set_newline true c), w'.
  split; [exact Hcall |]. split; [split; [exact Hp | reflexivity] |].
  split; [unfold same_session; cbn; auto |].
  split; [congruence |]. split; [exact Hw' |].
  rewrite Htr, Htr1. cbn [console_sd set_newline esc_str_pos].
  rewrite sent_to_write, sent_to_read, Hp, Z.sub_0_r, Nat2Z.id, firstn_all.
  reflexivity.
Qed.

(** Armed, a chunk that starts with the escape ends the session with
    nothing written. *)
Lemma escape_when_armed (c : console_client) (w : world)
  (rest : list byte) (q : list read_result) :
  scan_armed c ->
  fd_in c = STDIN_FILENO ->
  (length (TILDE :: DOT :: rest) <= BUFSZ)%nat ->
  w_tty_in w = RdData (TILDE :: DOT :: rest) :: q ->
  exists w',
    process_tty c w = Some (PROCESS_EXIT, set_esc_str_pos 2 c, w') /\
    w_trace w' = w_trace w ++ [EvRead STDIN_FILENO (RdData (TILDE :: DOT :: rest))].
Proof.
  intros [Hp Hnl] Hfd Hlen Hq.
  destruct (read_tty_chunk (fd_in c) w _ q Hfd Hq Hlen)
    as (w1 & Hr & _ & _ & _ & Htr1).
  unfold process_tty. rewrite Hr, nonempty_length by discriminate.
  cbn [length tty_loop].
  rewrite scan_byte_tilde; [| reflexivity | exact Hnl | exact Hp].
  rewrite scan_byte_dot;
    [| reflexivity | split; [reflexivity | exact Hnl] | simpl length; lia].
  change (0 + 1 >? 2) with false. cbv iota.
  exists w1. split; [| exact Htr1].
  destruct c; reflexivity.
Qed.

Lemma tty_calls_ok_then_exit (c : console_client) (w : world)
  (c1 : console_client) (w1 : world) (c2 : console_client) (w2 : world) :
  process_tty c w = Some (PROCESS_OK, c1, w1) ->
  process_tty c1 w1 = Some (PROCESS_EXIT, c2, w2) ->
  tty_calls 2 c w = Some ([PROCESS_OK; PROCESS_EXIT], c2, w2).
Proof. intros H1 H2. simpl. rewrite H1, H2. reflexivity. Qed.

(** When the escape follows bytes [p] without carriage return and a '\r',
    and the stream is cut into two chunks anywhere after the '\r' and
    before the '.', the first call returns [PROCESS_OK], the second one
    [PROCESS_EXIT], and the socket receives exactly [p] and the '\r'. *)
Theorem escape_cut_after_carriage_return (c : console_client) (w : world)
  (p e1 e2 rest : list byte) (q : list read_result) :
  scan_initial c ->
  fd_in c = STDIN_FILENO ->
  ~ In CR p ->
  e1 ++ e2 = esc_str -> e2 <> [] ->
  (length (p ++ CR :: e1) <= BUFSZ)%nat ->
  (length (e2 ++ rest) <= BUFSZ)%nat ->
  w_tty_in w = RdData (p ++ CR :: e1) :: RdData (e2 ++ rest) :: q ->
  writes_succeed w ->
  exists c' w',
    tty_calls 2 c w = Some ([PROCESS_OK; PROCESS_EXIT], c', w') /\
    esc_str_pos c' = 2 /\
    sent_to (console_sd c) (w_trace w')
    = sent_to (console_sd c) (w_trace w) ++ p ++ [CR].
Proof.
  intros Hi Hfd Hcr He He2 Hl1 Hl2 Hq Hw.
  assert (Hcases : (e1 = [] /\ e2 = [TILDE; DOT]) \/ (e1 = [TILDE] /\ e2 = [DOT])).
  { unfold esc_str in He.
    destruct e1 as [| a [| b [| x e1]]]; simpl in He.
    - auto.
    - injection He as -> ->. auto.
    - injection He as -> -> ->. congruence.
    - destruct e1; discriminate He. }
  destruct Hcases as [[-> ->] | [-> ->]].
  - destruct (line_arms_the_scanner c w p _ Hi Hfd Hcr Hl1 Hq Hw)
      as (c1 & w1 & Hc1 & Harm & Hs & Hq1 & _ & Hsent).
    destruct Hs as (Hsd & Hfd1 & _).
    destruct (escape_when_armed c1 w1 rest q Harm) as (w2 & Hc2 & Htr2);
      [congruence | exact Hl2 | exact Hq1 |].
    exists (set_esc_str_pos 2 c1), w2.
    split; [apply (tty_calls_ok_then_exit _ _ _ _ _ _ Hc1 Hc2) |].
    split; [reflexivity |].
    rewrite Htr2, sent_to_read. exact Hsent.
  - destruct (process_tty_tilde_at_end c w p _ Hi Hfd Hcr Hl1 Hq Hw)
      as (c1 & w1 & Hc1 & Hpend & Hs & Hq1 & Hw1 & Hsent).
    destruct Hs as (Hsd & Hfd1 & _).
    destruct (process_tty_dot_when_pending c1 w1 0 rest q Hpend)
      as (w2 & Hc2 & Hsent2); [congruence | exact Hl2 | exact Hq1 | exact Hw1 |].
    exists (set_esc_str_pos 2 c1), w2.
    split; [apply (tty_calls_ok_then_exit _ _ _ _ _ _ Hc1 Hc2) |].
    split; [reflexivity |].
    rewrite Hsent2, Hsent. cbn [Nat.ltb Nat.leb app].
    rewrite !sent_to_app. simpl. now rewrite Z.eqb_refl, !app_nil_r.
Qed.

Lemma escape_cut_after_carriage_return_witness :
  exists c' w',
    tty_calls 2 session_client
      (tty_world [[LOWER_A; CR]; [TILDE; DOT; LOWER_X]])
    = Some ([PROCESS_OK; PROCESS_EXIT], c', w') /\
    esc_str_pos c' = 2 /\
    sent_to 3 (w_trace w') = [LOWER_A; CR].
Proof.
  apply (escape_cut_after_carriage_return session_client
           (tty_world [[LOWER_A; CR]; [TILDE; DOT; LOWER_X]])
           [LOWER_A] [] [TILDE; DOT] [LOWER_X] []).
  - split; reflexivity.
  - reflexivity.
  - intros H. repeat (destruct H as [H | H]; [discriminate H |]). exact H.
  - reflexivity.
  - discriminate.
  - apply Nat.leb_le. reflexivity.
  - apply Nat.leb_le. reflexivity.
  - reflexivity.
  - constructor.
Defined.

(** ** What each side of the relay may touch *)

Lemma same_terminal_refl (w : world) : same_terminal w w.
Proof. unfold same_terminal. auto. Qed.

Lemma extends_refl (P : event -> Prop) (w : world) : extends P w w.
Proof.
  split; [apply same_terminal_refl |].
  exists []. split; [now rewrite app_nil_r | constructor].
Qed.

Lemma extends_trans (P : event -> Prop) (w1 w2 w3 : world) :
  extends P w1 w2 -> extends P w2 w3 -> extends P w1 w3.
Proof.
  intros [(A1 & A2 & A3) (t1 & Ht1 & Hp1)] [(B1 & B2 & B3) (t2 & Ht2 & Hp2)].
  split; [unfold same_terminal; repeat split; congruence |].
  exists (t1 ++ t2). split.
  - now rewrite Ht2, Ht1, app_assoc.
  - apply Forall_app. auto.
Qed.

Lemma extends_weaken (P Q : event -> Prop) (w w' : world) :
  (forall e, P e -> Q e) -> extends P w w' -> extends Q w w'.
Proof.
  intros H [Hs (t & Ht & Hp)]. split; [exact Hs |].
  exists t. split; [exact Ht |].
  eapply Forall_impl; eauto.
Qed.

Lemma extends_emit (P : event -> Prop) (e : event) (w : world) :
  P e -> extends P w (emit e w).
Proof.
  intros H. split; [unfold same_terminal; cbn; auto |].
  exists [e]. split; [reflexivity | repeat constructor; exact H].
Qed.

Lemma extends_read (P : event -> Prop) (fd : Z) (w : world) :
  (forall r, P (EvRead fd r)) ->
  extends P w (snd (read fd w)).
Proof.
  intros H. unfold read.
  destruct (fd =? STDIN_FILENO);
    [destruct (pop_read (w_tty_in w)) as [r q]
    | destruct (pop_read (w_con_in w)) as [r q]];
    (split; [unfold same_terminal; cbn; auto |]);
    exists [EvRead fd r]; (split; [reflexivity | repeat constructor; apply H]).
Qed.

Lemma extends_write (P : event -> Prop) (fd : Z) (bs : list byte) (w : world) :
  (forall o, P (EvWrite fd bs o)) ->
  extends P w (snd (write_buf_to_fd fd bs w)).
Proof.
  intros H. unfold write_buf_to_fd.
  destruct (w_wr w) as [| [| k] q];
    (split; [unfold same_terminal; cbn; auto |]);
    eexists [_]; (split; [reflexivity | repeat constructor; apply H]).
Qed.

Lemma write_on_intro (fd : Z) (bs : list byte) (o : write_outcome) :
  write_on fd (EvWrite fd bs o).
Proof. unfold write_on. eauto. Qed.

Lemma scan_byte_extends (buf : list byte) (i : Z) (c : console_client)
  (w : world) (r : scan_step) :
  scan_byte buf i c w = Some r ->
  extends (write_on (console_sd c)) w (step_world r).
Proof.
  unfold scan_byte. intros H.
  break_match_in H; some_inv; cbn [step_world console_sd set_esc_str_pos];
    try apply extends_refl;
    apply extends_write; intros o; apply write_on_intro.
Qed.

Lemma tty_loop_extends (n : nat) :
  forall (buf : list byte) (i : Z) (c : console_client) (w : world) (r : scan_step),
    tty_loop n buf i c w = Some r ->
    extends (write_on (console_sd c)) w (step_world r).
Proof.
  induction n as [| n IH]; intros buf i c w r H; simpl in H.
  - some_inv. apply extends_refl.
  - destruct (scan_byte buf i c w) as [[c1 w1 | c1 w1] |] eqn:E; [| | discriminate].
    + pose proof (scan_byte_extends _ _ _ _ _ E) as H1.
      pose proof (scan_byte_same_session _ _ _ _ _ E) as (Hsd & _).
      apply IH in H. cbn [step_client step_world] in *. rewrite Hsd in H.
      eapply extends_trans; eauto.
    + some_inv. apply (scan_byte_extends _ _ _ _ _ E).
Qed.

Lemma process_tty_extends (c : console_client) (w : world) (rc : process_rc)
  (c' : console_client) (w' : world) :
  process_tty c w = Some (rc, c', w') ->
  extends (tty_event c) w w'.
Proof.
  unfold process_tty. intros H.
  assert (Hr : extends (tty_event c) w (snd (read (fd_in c) w)))
    by (apply extends_read; intros r; left; eauto).
  destruct (read (fd_in c) w) as [[| buf] w1]; cbn [snd] in Hr;
    [some_inv; exact Hr |].
  destruct (Z.of_nat (length buf) =? 0); [some_inv; exact Hr |].
  destruct (tty_loop (length buf) buf 0 c w1) as [s |] eqn:E; [| discriminate].
  pose proof (tty_loop_same_session _ _ _ _ _ _ E) as (Hsd & _).
  apply tty_loop_extends in E.
  apply (extends_weaken _ (tty_event c)) in E; [| intros e He; right; exact He].
  destruct s as [c2 w2 | c2 w2]; cbn [step_client step_world] in *.
  - destruct (take _ buf) as [bs |]; [| discriminate].
    assert (Hw : extends (tty_event c) w2 (snd (write_buf_to_fd (console_sd c2) bs w2))).
    { apply extends_write. intros o. right. rewrite Hsd. apply write_on_intro. }
    destruct (write_buf_to_fd (console_sd c2) bs w2) as [rc3 w3]. cbn [snd] in Hw.
    destruct (rc3 <? 0); some_inv;
      (eapply extends_trans; [exact Hr |]; eapply extends_trans; eauto).
  - some_inv. eapply extends_trans; eauto.
Qed.

Lemma process_console_extends (c : console_client) (w : world) :
  extends (console_event c) w (snd (process_console c w)).
Proof.
  unfold process_console.
  assert (Hr : extends (console_event c) w (snd (read (console_sd c) w)))
    by (apply extends_read; intros r; left; eauto).
  destruct (read (console_sd c) w) as [[| buf] w1]; cbn [snd] in *.
  - eapply extends_trans; [exact Hr |].
    apply extends_emit. right. right. left. eauto.
  - destruct (Z.of_nat (length buf) =? 0); cbn [snd].
    + eapply extends_trans; [exact Hr |].
      apply extends_emit. right. right. right. eauto.
    + assert (Hw : extends (console_event c) w1
                     (snd (write_buf_to_fd (fd_out c) buf w1))).
      { apply extends_write. intros o. right. left. apply write_on_intro. }
      destruct (write_buf_to_fd (fd_out c) buf w1) as [rc w2]. cbn [snd] in *.
      eapply extends_trans; eauto.
Qed.

(** Events that deliver nothing to [fd] leave what it received as it was. *)
Lemma extends_sent_to (P : event -> Prop) (fd : Z) (w w' : world) :
  (forall e, P e -> delivered fd e = []) ->
  extends P w w' ->
  sent_to fd (w_trace w') = sent_to fd (w_trace w).
Proof.
  intros H [_ (t & Ht & Hp)]. rewrite Ht, sent_to_app.
  assert (E : sent_to fd t = []).
  { clear Ht. unfold sent_to.
    induction Hp as [| e t He _ IH]; [reflexivity |].
    simpl. now rewrite (H e He), IH. }
  now rewrite E, app_nil_r.
Qed.

Lemma write_on_other (fd fd' : Z) (e : event) :
  fd <> fd' -> write_on fd' e -> delivered fd e = [].
Proof.
  intros Hne (bs & o & ->). simpl.
  destruct (Z.eqb_spec fd' fd); [congruence | reflexivity].
Qed.



(** Whatever [process_console] does, it delivers bytes to [fd_out] (the
    data it relays) and to standard error (its two messages) only: any
    other descriptor, the socket included when it is neither of the two,
    receives nothing; and it leaves the terminal's attributes as they
    were. *)
Theorem process_console_writes_to_output_only (c : console_client) (w : world)
  (fd : Z) :
  fd <> fd_out c ->
  fd <> STDERR_FILENO ->
  sent_to fd (w_trace (snd (process_console c w))) = sent_to fd (w_trace w) /\
  w_termios (snd (process_console c w)) = w_termios w.
Proof.
  intros Hfd Herr. pose proof (process_console_extends c w) as H.
  assert (E : (STDERR_FILENO =? fd) = false) by (apply Z.eqb_neq; congruence).
  split.
  - apply (extends_sent_to (console_event c)); [| exact H].
    intros e [[r ->] | [He | [[m ->] | [m ->]]]].
    + reflexivity.
    + apply (write_on_other fd (fd_out c)); auto.
    + unfold delivered. now rewrite E.
    + unfold delivered. now rewrite E.
  - destruct H as [(_ & Ht & _) _]. exact Ht.
Qed.

Lemma process_console_writes_to_output_only_witness :
  sent_to 3
    (w_trace (snd (process_console session_client
                     (fresh_world tty_startup [] [RdData [CR; TILDE; DOT]] []))))
  = sent_to 3 []
  /\ w_termios (snd (process_console session_client
                       (fresh_world tty_startup [] [RdData [CR; TILDE; DOT]] [])))
     = {| t_flags := 1; t_raw := false |}.
Proof.
  apply (process_console_writes_to_output_only session_client
           (fresh_world tty_startup [] [RdData [CR; TILDE; DOT]] []) 3);
    discriminate.
Defined.

(** ** The relay loop as a whole *)

Lemma loop_event_same_session (c c' : console_client) (e : event) :
  same_session c c' -> loop_event c' e -> loop_event c e.
Proof.
  unfold loop_event, tty_event, console_event.
  intros (-> & -> & -> & _). auto.
Qed.

Lemma main_loop_body_extends (r0 r1 : bool) (prc : process_rc)
  (c : console_client) (w : world) (prc' : process_rc) (c' : console_client)
  (w' : world) :
  main_loop_body r0 r1 prc c w = Some (prc', c', w') ->
  extends (loop_event c) w w'.
Proof.
  unfold main_loop_body. intros H.
  assert (Hcon : forall c1 w1, same_session c c1 ->
            extends (loop_event c) w1 (snd (process_console c1 w1))).
  { intros c1 w1 Hs.
    apply (extends_weaken (console_event c1)); [| apply process_console_extends].
    intros e He. apply (loop_event_same_session c c1 e Hs). right. right. exact He. }
  destruct r0.
  - destruct (process_tty c w) as [[[prc1 c1] w1] |] eqn:E; [| discriminate].
    pose proof (process_tty_same_session _ _ _ _ _ E) as Hs.
    apply process_tty_extends in E.
    apply (extends_weaken _ (loop_event c)) in E;
      [| intros e He; right; left; exact He].
    destruct (process_rc_eqb prc1 PROCESS_OK && r1).
    + specialize (Hcon c1 w1 Hs).
      destruct (process_console c1 w1) as [prc2 w2]. some_inv.
      eapply extends_trans; eauto.
    + some_inv. exact E.
  - destruct (process_rc_eqb prc PROCESS_OK && r1).
    + specialize (Hcon c w (same_session_refl c)).
      destruct (process_console c w) as [prc2 w2]. some_inv. exact Hcon.
    + some_inv. apply extends_refl.
Qed.

Lemma main_loop_extends (polls : list poll_result) :
  forall (prc : process_rc) (c : console_client) (w : world) (e : loop_end)
         (c' : console_client) (w' : world),
    main_loop polls prc c w = Some (e, c', w') ->
    same_session c c' /\ extends (loop_event c) w w'.
Proof.
  induction polls as [| p polls IH]; intros prc c w e c' w' H; simpl in H.
  - some_inv. split; [apply same_session_refl | apply extends_refl].
  - assert (Hpoll : extends (loop_event c) w (emit (EvPoll p) w))
      by (apply extends_emit; left; eauto).
    destruct p as [| r0 r1].
    + some_inv. split; [apply same_session_refl |].
      eapply extends_trans; [exact Hpoll |].
      apply extends_emit. right. right. right. right. left. eauto.
    + destruct (main_loop_body r0 r1 prc c _) as [[[prc1 c1] w1] |] eqn:E;
        [| discriminate].
      pose proof (main_loop_body_same_session _ _ _ _ _ _ _ _ E) as Hs.
      apply main_loop_body_extends in E.
      assert (Hw1 : extends (loop_event c) w w1)
        by (eapply extends_trans; eauto).
      destruct (negb (process_rc_eqb prc1 PROCESS_OK)).
      * some_inv. auto.
      * apply IH in H. destruct H as [Hs' He].
        split; [eapply same_session_trans; eauto |].
        eapply extends_trans; [exact Hw1 |].
        apply (extends_weaken (loop_event c1)); [| exact He].
        intros ev. apply loop_event_same_session. exact Hs.
Qed.

Lemma loop_event_not_terminal (c : console_client) (e : event) :
  loop_event c e -> terminal_call e = false.
Proof.
  unfold loop_event, tty_event, console_event, write_on.
  intros [[p ->] | [[[r ->] | (bs & o & ->)]
                   | [[r ->] | [(bs & o & ->) | [[m ->] | [m ->]]]]]];
    reflexivity.
Qed.

Lemma client_tty_init_raw (c : console_client) (w : world)
  (c2 : console_client) (w2 : world) :
  client_tty_init c w = (0, c2, w2) ->
  st_isatty (w_start w) = true ->
  w_termios w2 = cfmakeraw (w_termios w) /\ orig_termios c2 = w_termios w.
Proof.
  unfold client_tty_init. intros H Ht.
  cbn [is_tty set_tty_fds fd_in] in H. rewrite Ht in H. simpl negb in H.
  cbv iota in H.
  match type of H with
  | context [negb ?b] => destruct (negb b); [discriminate |]
  end.
  match type of H with
  | context [tcsetattr ?fd ?t ?w0] =>
      destruct (tcsetattr_spec fd t w0) as (rc & _ & Hrc & Hset);
      destruct (tcsetattr fd t w0) as [rc2 w3]
  end.
  cbn [fst snd] in *. rewrite Hrc in H.
  destruct (Z.eqb_spec rc 0) as [E | Hne]; simpl in H; [| discriminate].
  specialize (Hset E). some_inv. split; [exact Hset | reflexivity].
Qed.

(** On a terminal, once both set-up calls have succeeded, the terminal is
    in raw mode for as long as the loop runs, whatever the two sides do, and
    the attributes kept for the end are those of the start. *)
Theorem terminal_is_raw_during_the_session (polls : list poll_result)
  (w : world) (c1 : console_client) (w1 : world) (c2 : console_client)
  (w2 : world) (prc : process_rc) (e : loop_end) (c3 : console_client)
  (w3 : world) :
  client_init zero_client w = (0, c1, w1) ->
  client_tty_init c1 w1 = (0, c2, w2) ->
  st_isatty (w_start w) = true ->
  main_loop polls prc c2 w2 = Some (e, c3, w3) ->
  w_termios w3 = cfmakeraw (w_termios w) /\
  orig_termios c3 = w_termios w /\ is_tty c3 = true.
Proof.
  intros H1 H2 Ht Hl.
  apply client_init_ok in H1. destruct H1 as (_ & Hst & Hterm).
  pose proof (client_tty_init_ok _ _ _ _ H2) as (_ & _ & Htty & _).
  apply client_tty_init_raw in H2; [| congruence].
  destruct H2 as [Hraw Horig].
  apply main_loop_extends in Hl.
  destruct Hl as [(_ & _ & _ & Htty3 & Horig3) [(_ & Hterm3 & _) _]].
  repeat split; congruence.
Qed.

Lemma terminal_is_raw_during_the_session_witness :
  w_termios
    {| w_start := tty_startup;
       w_termios := {| t_flags := 1; t_raw := true |};
       w_tcset := []; w_tty_in := []; w_con_in := []; w_wr := [];
       w_trace := [EvSocket 3; EvConnect 3 0; EvIsatty 0 true;
                   EvTcgetattr 0 0;
                   EvTcsetattr 0 {| t_flags := 1; t_raw := true |} 0;
                   EvPoll (PollReady true true);
                   EvRead 0 (RdData [LOWER_X]); EvWrite 3 [LOWER_X] WrOk;
                   EvRead 3 (RdData [LOWER_A]); EvWrite 1 [LOWER_A] WrOk] |}
  = cfmakeraw {| t_flags := 1; t_raw := false |}
  /\ orig_termios session_client = {| t_flags := 1; t_raw := false |}
  /\ is_tty session_client = true.
Proof.
  refine (terminal_is_raw_during_the_session [PollReady true true]
            (fresh_world tty_startup [RdData [LOWER_X]] [RdData [LOWER_A]] [])
            _ _ _ _ PROCESS_OK Blocked session_client _ _ _ _ _).
  - reflexivity.
  - reflexivity.
  - reflexivity.
  - vm_compute. reflexivity.
Defined.

(** ** Set-up, as [main] goes through it *)

Lemma client_init_scan (c : console_client) (w : world) :
  scan_initial c -> scan_initial (snd (fst (client_init c w))).
Proof.
  unfold client_init, scan_initial. intros H.
  break_match_in H; repeat match goal with
    | |- context [if ?b then _ else _] => destruct b
    end; exact H.
Qed.

Lemma client_tty_init_scan (c : console_client) (w : world) :
  scan_initial c -> scan_initial (snd (fst (client_tty_init c w))).
Proof.
  unfold client_tty_init, scan_initial. intros H.
  cbn [is_tty set_tty_fds fd_in].
  destruct (st_isatty (w_start w)); simpl negb; cbv iota; [| exact H].
  match goal with |- context [negb ?b] => destruct (negb b) end; [exact H |].
  match goal with
  | |- context [tcsetattr ?fd ?t ?w0] => destruct (tcsetattr fd t w0) as [rc2 w3]
  end.
  destruct (negb (rc2 =? 0)); exact H.
Qed.

Lemma client_init_extends (c : console_client) (w : world) :
  extends (fun e => terminal_call e = false) w (snd (client_init c w)).
Proof.
  unfold client_init.
  repeat match goal with
    | |- context [if ?b then _ else _] => destruct b
    end; cbn [snd];
    repeat (eapply extends_trans; [| apply extends_emit; reflexivity]);
    apply extends_refl.
Qed.

Lemma main_loop_defined (polls : list poll_result) :
  forall (c : console_client) (w : world),
    scanning c ->
    exists e c' w', main_loop polls PROCESS_OK c w = Some (e, c', w').
Proof.
  induction polls as [| p polls IH]; intros c w Hs; simpl; [eauto |].
  destruct p as [| r0 r1]; [eauto |].
  unfold main_loop_body. destruct r0.
  - destruct (process_tty_scanning c (emit (EvPoll (PollReady true r1)) w) Hs)
      as (rc & c1 & w1 & Hcall & Hc).
    rewrite Hcall.
    destruct rc; cbn [process_rc_eqb andb negb]; [| eauto ..].
    assert (Hs1 : scanning c1)
      by (destruct Hc as [(E & _) | Hs1]; [discriminate E | exact Hs1]).
    destruct r1; cbn [andb negb process_rc_eqb].
    + destruct (process_console c1 w1) as [[| |] w2];
        cbn [process_rc_eqb negb]; eauto.
    + apply IH. exact Hs1.
  - cbn [process_rc_eqb andb]. destruct r1.
    + destruct (process_console c _) as [[| |] w2];
        cbn [process_rc_eqb negb]; eauto.
    + cbn [process_rc_eqb negb]. apply IH. exact Hs.
Qed.

(** Whatever the environment answers to each call, [main] runs without
    undefined behaviour: [esc_str] is never indexed outside its two
    elements and no write is given a length outside its buffer.  It either
    exits or is still waiting in [poll] when the answers end. *)
Theorem main_has_no_undefined_behaviour (polls : list poll_result) (w : world) :
  exists r w', main polls w = Some (r, w').
Proof.
  unfold main.
  pose proof (client_init_scan zero_client w (conj eq_refl eq_refl)) as Hs1.
  destruct (client_init zero_client w) as [[rc c1] w1]. cbn [fst snd] in Hs1.
  destruct (negb (rc =? 0)); [eauto |].
  pose proof (client_tty_init_scan c1 w1 Hs1) as Hs2.
  destruct (client_tty_init c1 w1) as [[rc2 c2] w2]. cbn [fst snd] in Hs2.
  destruct (negb (rc2 =? 0)); [eauto |].
  destruct (main_loop_defined polls c2 w2 (scanning_start c2 Hs2))
    as (e & c3 & w3 & Hl).
  rewrite Hl. destruct e; eauto.
Qed.

(** ** Set-up that fails *)

(** When [socket] returns 0 or [connect] fails, [main] exits with
    [EXIT_FAILURE] at once: it never polls, reads or writes and never looks
    at the terminal.  Only a return of 0 counts as a failure of [socket]; on
    any other value, negative ones included, [connect] is called on it, and
    when [connect] fails that descriptor is closed. *)
Theorem main_fails_when_client_init_fails (polls : list poll_result) (w : world) :
  st_socket (w_start w) = 0 \/ st_connect (w_start w) <> 0 ->
  exists w',
    main polls w = Some (Some EXIT_FAILURE, w') /\
    w_termios w' = w_termios w /\
    w_trace w'
    = w_trace w
      ++ (if st_socket (w_start w) =? 0
          then [EvSocket 0; EvWarn "Can't open socket"]
          else [EvSocket (st_socket (w_start w));
                EvConnect (st_socket (w_start w)) (st_connect (w_start w));
                EvWarn "Can't connect to console server";
                EvClose (st_socket (w_start w))]).
Proof.
  intros H. unfold main, client_init.
  cbn [console_sd set_console_sd w_start emit].
  destruct (Z.eqb_spec (st_socket (w_start w)) 0) as [E | E].
  - rewrite E. eexists. split; [reflexivity |]. cbn.
    now rewrite <- app_assoc.
  - destruct H as [H | H]; [contradiction |].
    destruct (Z.eqb_spec (st_connect (w_start w)) 0) as [| _]; [contradiction |].
    eexists. split; [reflexivity |]. cbn.
    now rewrite <- !app_assoc.
Qed.

Lemma main_fails_when_client_init_fails_witness :
  exists w',
    main [PollReady true true]
      (fresh_world {| st_socket := -1; st_connect := -1; st_isatty := true;
                      st_tcgetattr := 0 |} [RdData [LOWER_X]] [] [])
    = Some (Some EXIT_FAILURE, w') /\
    w_termios w' = {| t_flags := 1; t_raw := false |} /\
    w_trace w'
    = [EvSocket (-1); EvConnect (-1) (-1);
       EvWarn "Can't connect to console server"; EvClose (-1)].
Proof.
  apply (main_fails_when_client_init_fails [PollReady true true]
           (fresh_world {| st_socket := -1; st_connect := -1; st_isatty := true;
                           st_tcgetattr := 0 |} [RdData [LOWER_X]] [] [])).
  right. discriminate.
Defined.

Lemma client_init_succeeds (c : console_client) (w : world) :
  st_socket (w_start w) <> 0 ->
  st_connect (w_start w) = 0 ->
  client_init c w
  = (0, set_console_sd (st_socket (w_start w)) c,
     emit (EvConnect (st_socket (w_start w)) 0)
       (emit (EvSocket (st_socket (w_start w))) w)).
Proof.
  intros Hs Hc. unfold client_init.
  cbn [console_sd set_console_sd w_start emit].
  destruct (Z.eqb_spec (st_socket (w_start w)) 0) as [| _]; [contradiction |].
  rewrite Hc. reflexivity.
Qed.

(** When standard input is a terminal and [tcgetattr] fails, [main] exits
    with [EXIT_FAILURE] without polling, through [client_fini]: the socket
    is closed, and [tcsetattr] is called with the attributes field of the
    client, which was never filled and is still all zero; when that call
    succeeds the terminal is left with these attributes. *)
Theorem tcgetattr_failure_restores_zeroed_attributes (polls : list poll_result)
  (w : world) :
  st_socket (w_start w) <> 0 ->
  st_connect (w_start w) = 0 ->
  st_isatty (w_start w) = true ->
  st_tcgetattr (w_start w) <> 0 ->
  exists rc w',
    main polls w = Some (Some EXIT_FAILURE, w') /\
    w_trace w'
    = w_trace w
      ++ [EvSocket (st_socket (w_start w));
          EvConnect (st_socket (w_start w)) 0;
          EvIsatty STDIN_FILENO true;
          EvTcgetattr STDIN_FILENO (st_tcgetattr (w_start w));
          EvWarn "Can't get terminal attributes for console";
          EvTcsetattr STDIN_FILENO zero_termios rc;
          EvClose (st_socket (w_start w))] /\
    (rc = 0 -> w_termios w' = zero_termios).
Proof.
  intros Hs Hc Ht Hg. unfold main.
  rewrite (client_init_succeeds zero_client w Hs Hc).
  change (negb (0 =? 0)) with false. cbv iota.
  unfold client_tty_init.
  cbn [console_sd set_console_sd w_start emit is_tty set_tty_fds fd_in].
  rewrite Ht. simpl negb. cbv iota.
  destruct (Z.eqb_spec (st_tcgetattr (w_start w)) 0) as [| _]; [contradiction |].
  simpl negb. cbv iota. change (exit_status (-1)) with EXIT_FAILURE.
  unfold client_fini.
  cbn [is_tty set_tty_fds set_console_sd fd_in orig_termios zero_client console_sd].
  match goal with
  | |- context [tcsetattr ?fd ?t ?w0] =>
      destruct (tcsetattr_spec fd t w0) as (rc & Htr & _ & Hset)
  end.
  exists rc. eexists. split; [reflexivity |].
  cbn [w_trace w_termios emit] in *. split; [| exact Hset].
  rewrite Htr. cbn [w_trace emit]. now rewrite <- !app_assoc.
Qed.

Lemma tcgetattr_failure_restores_zeroed_attributes_witness :
  exists rc w',
    main []
      (fresh_world {| st_socket := 3; st_connect := 0; st_isatty := true;
                      st_tcgetattr := -1 |} [] [] [])
    = Some (Some EXIT_FAILURE, w') /\
    w_trace w'
    = [EvSocket 3; EvConnect 3 0; EvIsatty STDIN_FILENO true;
       EvTcgetattr STDIN_FILENO (-1);
       EvWarn "Can't get terminal attributes for console";
       EvTcsetattr STDIN_FILENO zero_termios rc; EvClose 3] /\
    (rc = 0 -> w_termios w' = zero_termios).
Proof.
  apply (tcgetattr_failure_restores_zeroed_attributes []
           (fresh_world {| st_socket := 3; st_connect := 0; st_isatty := true;
                           st_tcgetattr := -1 |} [] [] []));
    [discriminate | reflexivity | reflexivity | discriminate].
Defined.

(** When [tcsetattr] fails while the terminal is being made raw, [main]
    exits with [EXIT_FAILURE] without polling, through [client_fini], which
    calls [tcsetattr] again with the attributes saved just before and
    closes the socket. *)
Theorem tcsetattr_failure_restores_saved_attributes (polls : list poll_result)
  (w : world) (rc1 : Z) (q : list Z) :
  st_socket (w_start w) <> 0 ->
  st_connect (w_start w) = 0 ->
  st_isatty (w_start w) = true ->
  st_tcgetattr (w_start w) = 0 ->
  w_tcset w = rc1 :: q -> rc1 <> 0 ->
  exists rc2 w',
    main polls w = Some (Some EXIT_FAILURE, w') /\
    w_trace w'
    = w_trace w
      ++ [EvSocket (st_socket (w_start w));
          EvConnect (st_socket (w_start w)) 0;
          EvIsatty STDIN_FILENO true;
          EvTcgetattr STDIN_FILENO 0;
          EvTcsetattr STDIN_FILENO (cfmakeraw (w_termios w)) rc1;
          EvWarn "Can't set terminal attributes for console";
          EvTcsetattr STDIN_FILENO (w_termios w) rc2;
          EvClose (st_socket (w_start w))] /\
    (rc2 = 0 -> w_termios w' = w_termios w).
Proof.
  intros Hs Hc Ht Hg Hq Hrc. unfold main.
  rewrite (client_init_succeeds zero_client w Hs Hc).
  change (negb (0 =? 0)) with false. cbv iota.
  unfold client_tty_init.
  cbn [console_sd set_console_sd w_start emit is_tty set_tty_fds fd_in].
  rewrite Ht, Hg. simpl negb. cbv iota.
  unfold tcsetattr at 1. cbn [w_tcset emit w_termios]. rewrite Hq.
  destruct (Z.eqb_spec rc1 0) as [| _]; [contradiction |].
  destruct (Z.eqb_spec rc1 0) as [| _]; [contradiction |].
  simpl negb. cbv iota. change (exit_status (-1)) with EXIT_FAILURE.
  unfold client_fini.
  cbn [is_tty set_tty_fds set_console_sd set_orig_termios fd_in orig_termios
       console_sd].
  match goal with
  | |- context [tcsetattr ?fd ?t ?w0] =>
      destruct (tcsetattr_spec fd t w0) as (rc & Htr & _ & Hset)
  end.
  exists rc. eexists. split; [reflexivity |].
  cbn [w_trace w_termios emit] in *. split; [| exact Hset].
  rewrite Htr. cbn [w_trace emit set_tcset]. now rewrite <- !app_assoc.
Qed.

Lemma tcsetattr_failure_restores_saved_attributes_witness :
  exists rc2 w',
    main [PollErr]
      {| w_start := tty_startup;
         w_termios := {| t_flags := 5; t_raw := false |};
         w_tcset := [-1]; w_tty_in := []; w_con_in := []; w_wr := [];
         w_trace := [] |}
    = Some (Some EXIT_FAILURE, w') /\
    w_trace w'
    = [EvSocket 3; EvConnect 3 0; EvIsatty STDIN_FILENO true;
       EvTcgetattr STDIN_FILENO 0;
       EvTcsetattr STDIN_FILENO {| t_flags := 5; t_raw := true |} (-1);
       EvWarn "Can't set terminal attributes for console";
       EvTcsetattr STDIN_FILENO {| t_flags := 5; t_raw := false |} rc2;
       EvClose 3] /\
    (rc2 = 0 -> w_termios w' = {| t_flags := 5; t_raw := false |}).
Proof.
  apply (tcsetattr_failure_restores_saved_attributes [PollErr]
           {| w_start := tty_startup;
              w_termios := {| t_flags := 5; t_raw := false |};
              w_tcset := [-1]; w_tty_in := []; w_con_in := []; w_wr := [];
              w_trace := [] |} (-1) []);
    [discriminate | reflexivity | reflexivity | reflexivity | reflexivity
     | discriminate].
Defined.

(** ** Standard input that is no terminal *)

(** When standard input is no terminal, [main] never asks for nor sets
    terminal attributes, from start to exit and whatever else happens: the
    trace has no [tcgetattr] and no [tcsetattr], and the attributes are at
    the end what they were. *)
Theorem no_terminal_call_without_a_tty (polls : list poll_result) (w : world)
  (r : option Z) (w' : world) :
  st_isatty (w_start w) = false ->
  main polls w = Some (r, w') ->
  w_termios w' = w_termios w /\
  exists t, w_trace w' = w_trace w ++ t /\
            Forall (fun e => terminal_call e = false) t.
Proof.
  intros Ht Hm.
  enough (H : extends (fun e => terminal_call e = false) w w').
  { destruct H as [(_ & Hterm & _) Htr]. split; assumption. }
  unfold main in Hm.
  pose proof (client_init_extends zero_client w) as H1.
  assert (Hst : w_start (snd (client_init zero_client w)) = w_start w)
    by (destruct H1 as [(E & _) _]; exact E).
  destruct (client_init zero_client w) as [[rc c1] w1]. cbn [snd] in *.
  destruct (negb (rc =? 0)); [some_inv; exact H1 |].
  unfold client_tty_init in Hm.
  cbn [is_tty set_tty_fds fd_in] in Hm. rewrite Hst, Ht in Hm.
  simpl negb in Hm. cbv iota in Hm. change (negb (0 =? 0)) with false in Hm.
  cbv iota in Hm.
  set (c2 := set_tty_fds STDIN_FILENO STDOUT_FILENO false c1) in *.
  assert (H2 : extends (fun e => terminal_call e = false) w
                 (emit (EvIsatty STDIN_FILENO false) w1)).
  { eapply extends_trans; [exact H1 |]. apply extends_emit. reflexivity. }
  destruct (main_loop polls PROCESS_OK c2 _) as [[[e c3] w3] |] eqn:El;
    [| discriminate].
  apply main_loop_extends in El.
  destruct El as [(_ & _ & _ & Htty & _) Hl].
  apply (extends_weaken _ (fun e => terminal_call e = false)) in Hl;
    [| apply loop_event_not_terminal].
  assert (H3 : extends (fun e => terminal_call e = false) w w3)
    by (eapply extends_trans; eauto).
  assert (Hf : extends (fun e => terminal_call e = false) w (client_fini c3 w3)).
  { unfold client_fini. rewrite Htty. cbn [is_tty c2 set_tty_fds].
    eapply extends_trans; [exact H3 |]. apply extends_emit. reflexivity. }
  destruct e; some_inv; assumption.
Qed.

Lemma no_terminal_call_without_a_tty_witness :
  w_termios
    {| w_start := {| st_socket := 3; st_connect := 0; st_isatty := false;
                     st_tcgetattr := 0 |};
       w_termios := {| t_flags := 1; t_raw := false |};
       w_tcset := []; w_tty_in := []; w_con_in := []; w_wr := [];
       w_trace := [EvSocket 3; EvConnect 3 0; EvIsatty 0 false;
                   EvPoll (PollReady true false); EvRead 0 (RdData []);
                   EvClose 3] |}
  = {| t_flags := 1; t_raw := false |}
  /\ exists t,
       [EvSocket 3; EvConnect 3 0; EvIsatty 0 false;
        EvPoll (PollReady true false); EvRead 0 (RdData []); EvClose 3]
       = [] ++ t /\
       Forall (fun e => terminal_call e = false) t.
Proof.
  refine (no_terminal_call_without_a_tty [PollReady true false]
            (fresh_world {| st_socket := 3; st_connect := 0;
                            st_isatty := false; st_tcgetattr := 0 |} [] [] [])
            (Some EXIT_SUCCESS) _ _ _).
  - reflexivity.
  - vm_compute. reflexivity.
Defined.

(** ** From the socket to the terminal *)

Lemma process_console_chunk (c : console_client) (w : world)
  (ch : list byte) (q : list read_result) :
  console_sd c <> STDIN_FILENO ->
  console_chunk ch ->
  w_con_in w = RdData ch :: q ->
  writes_succeed w ->
  exists w',
    process_console c w = (PROCESS_OK, w') /\
    w_con_in w' = q /\ writes_succeed w' /\
    w_trace w' = w_trace w ++ [EvRead (console_sd c) (RdData ch);
                               EvWrite (fd_out c) ch WrOk].
Proof.
  intros Hsd [Hne Hlen] Hq Hw.
  destruct (read_console_chunk (console_sd c) w ch q Hsd Hq Hlen)
    as (w1 & Hr & Hq1 & _ & Hwr1 & Htr1).
  destruct (write_goes_through (fd_out c) ch w1)
    as (w2 & Hwr & Hw2 & _ & Hci & Htr2);
    [now apply (writes_succeed_same w) |].
  unfold process_console. rewrite Hr, (nonempty_length _ Hne), Hwr.
  exists w2. split; [reflexivity |].
  split; [congruence |]. split; [exact Hw2 |].
  rewrite Htr2, Htr1, <- app_assoc. reflexivity.
Qed.

(** With the socket on a descriptor other than standard input, what it
    delivers is relayed to [fd_out] whole, unchanged and in order, whatever
    the bytes are (the escape is not looked for on this side): over cycles
    in which only the socket is ready, one chunk per cycle and the writes
    going through, every call returns [PROCESS_OK], the loop goes on with
    the client as it was, and [fd_out] receives the concatenation of the
    chunks.  When the socket is a descriptor other than [fd_out], it
    receives nothing. *)
Theorem console_stream_is_relayed_whole (chunks : list (list byte)) :
  forall (c : console_client) (w : world) (q : list read_result),
    console_sd c <> STDIN_FILENO ->
    Forall console_chunk chunks ->
    w_con_in w = map RdData chunks ++ q ->
    writes_succeed w ->
    exists w',
      main_loop (repeat (PollReady false true) (length chunks)) PROCESS_OK c w
      = Some (Blocked, c, w') /\
      sent_to (fd_out c) (w_trace w')
      = sent_to (fd_out c) (w_trace w) ++ concat chunks /\
      (fd_out c <> console_sd c ->
       sent_to (console_sd c) (w_trace w') = sent_to (console_sd c) (w_trace w)).
Proof.
  induction chunks as [| ch chunks IH]; intros c w q Hsd Hall Hq Hw.
  - exists w. split; [reflexivity |]. simpl. rewrite app_nil_r. auto.
  - inversion Hall as [| ? ? Hch Hrest]; subst.
    set (w0 := emit (EvPoll (PollReady false true)) w).
    destruct (process_console_chunk c w0 ch (map RdData chunks ++ q))
      as (w1 & Hcall & Hq1 & Hw1 & Htr); auto.
    destruct (IH c w1 q Hsd Hrest Hq1 Hw1) as (w' & Hloop & Hs1 & Hs2).
    exists w'. split; [| split].
    + cbn [length repeat main_loop]. fold w0. unfold main_loop_body.
      cbn [process_rc_eqb andb]. rewrite Hcall.
      cbn [process_rc_eqb negb]. exact Hloop.
    + rewrite Hs1, Htr. unfold w0. cbn [w_trace emit].
      rewrite !sent_to_app. simpl.
      rewrite Z.eqb_refl, !app_nil_r, <- app_assoc. reflexivity.
    + intros Hout. rewrite (Hs2 Hout), Htr. unfold w0. cbn [w_trace emit].
      rewrite !sent_to_app. simpl.
      destruct (Z.eqb_spec (fd_out c) (console_sd c)); [contradiction |].
      now rewrite !app_nil_r.
Qed.

Lemma console_stream_is_relayed_whole_witness :
  exists w',
    main_loop [PollReady false true; PollReady false true] PROCESS_OK
      session_client
      (fresh_world tty_startup []
         [RdData [LOWER_A; CR]; RdData [TILDE; DOT; LOWER_X]] [])
    = Some (Blocked, session_client, w') /\
    sent_to 1 (w_trace w') = [LOWER_A; CR; TILDE; DOT; LOWER_X] /\
    (1 <> 3 -> sent_to 3 (w_trace w') = []).
Proof.
  apply (console_stream_is_relayed_whole
           [[LOWER_A; CR]; [TILDE; DOT; LOWER_X]] session_client
           (fresh_world tty_startup []
              [RdData [LOWER_A; CR]; RdData [TILDE; DOT; LOWER_X]] []) []).
  - discriminate.
  - repeat (apply Forall_cons;
            [split; [discriminate | apply Nat.leb_le; reflexivity] |]).
    apply Forall_nil.
  - reflexivity.
  - constructor.
Defined.

(** ** A whole session that ends by the escape *)

Lemma quiet_refl (w : world) : quiet w w.
Proof. unfold quiet. auto. Qed.

Lemma quiet_trans (w1 w2 w3 : world) : quiet w1 w2 -> quiet w2 w3 -> quiet w1 w3.
Proof.
  unfold quiet. intros (A1 & A2 & A3 & A4) (B1 & B2 & B3 & B4).
  split; [congruence |]. split; [congruence |]. split; [congruence |].
  intros fd. now rewrite B4.
Qed.

Lemma quiet_emit (e : event) (w : world) :
  silent e = true -> quiet w (emit e w).
Proof.
  intros H. unfold quiet. cbn [w_tty_in w_con_in w_wr w_trace emit].
  repeat split. intros fd. rewrite sent_to_app.
  destruct e; try discriminate H; simpl; now rewrite !app_nil_r.
Qed.

Lemma quiet_tcsetattr (fd : Z) (t : termios) (w : world) :
  quiet w (snd (tcsetattr fd t w)).
Proof.
  unfold tcsetattr.
  destruct (w_tcset w) as [| rc q]; [| destruct (rc =? 0)];
    unfold quiet;
    cbn [snd w_tty_in w_con_in w_wr w_trace emit set_termios set_tcset];
    repeat split; intros fd';
    rewrite sent_to_app; simpl; now rewrite app_nil_r.
Qed.

Lemma client_init_ok_quiet (c : console_client) (w : world)
  (c1 : console_client) (w1 : world) :
  client_init c w = (0, c1, w1) -> quiet w w1.
Proof.
  unfold client_init. intros H.
  break_match_in H; some_inv.
  repeat (eapply quiet_trans; [| apply quiet_emit; reflexivity]).
  apply quiet_refl.
Qed.

Lemma client_tty_init_ok_quiet (c : console_client) (w : world)
  (c2 : console_client) (w2 : world) :
  client_tty_init c w = (0, c2, w2) -> quiet w w2.
Proof.
  unfold client_tty_init. cbn [is_tty set_tty_fds fd_in]. intros H.
  assert (H1 : quiet w (emit (EvIsatty STDIN_FILENO (st_isatty (w_start w))) w))
    by (apply quiet_emit; reflexivity).
  destruct (st_isatty (w_start w)); simpl negb in H; cbv iota in H;
    [| some_inv; exact H1].
  match type of H with
  | context [negb ?b] => destruct (negb b); [some_inv |]
  end.
  match type of H with
  | context [tcsetattr ?fd ?t ?w0] =>
      pose proof (quiet_tcsetattr fd t w0) as H2;
      destruct (tcsetattr fd t w0) as [rc2 w3]
  end.
  cbn [snd] in H2.
  destruct (negb (rc2 =? 0)); some_inv.
  eapply quiet_trans; [| exact H2].
  eapply quiet_trans; [exact H1 |]. apply quiet_emit. reflexivity.
Qed.

Lemma client_fini_quiet (c : console_client) (w : world) :
  quiet w (client_fini c w).
Proof.
  unfold client_fini.
  eapply quiet_trans; [| apply quiet_emit; reflexivity].
  destruct (is_tty c); [apply quiet_tcsetattr | apply quiet_refl].
Qed.

(** A session in which the terminal delivers bytes [p] without carriage
    return and a '\r' in one read, and the escape (followed by anything) in
    the next, ends with [EXIT_SUCCESS]; from start to exit the socket has
    received exactly [p] and the '\r'. *)
Theorem session_ends_by_escape (polls : list poll_result) (w : world)
  (c1 : console_client) (w1 : world) (c2 : console_client) (w2 : world)
  (p rest : list byte) (q : list read_result) :
  client_init zero_client w = (0, c1, w1) ->
  client_tty_init c1 w1 = (0, c2, w2) ->
  ~ In CR p ->
  (length (p ++ [CR]) <= BUFSZ)%nat ->
  (length (TILDE :: DOT :: rest) <= BUFSZ)%nat ->
  w_tty_in w = RdData (p ++ [CR]) :: RdData (TILDE :: DOT :: rest) :: q ->
  writes_succeed w ->
  exists w',
    main (PollReady true false :: PollReady true false :: polls) w
    = Some (Some EXIT_SUCCESS, w') /\
    sent_to (st_socket (w_start w)) (w_trace w')
    = sent_to (st_socket (w_start w)) (w_trace w) ++ p ++ [CR].
Proof.
  intros H1 H2 Hcr Hl1 Hl2 Hq Hw.
  pose proof (client_init_ok_quiet _ _ _ _ H1) as Q1.
  pose proof (client_init_scan zero_client w (conj eq_refl eq_refl)) as S1.
  rewrite H1 in S1. cbn [fst snd] in S1.
  pose proof (client_tty_init_ok_quiet _ _ _ _ H2) as Q2.
  pose proof (client_tty_init_scan c1 w1 S1) as S2.
  rewrite H2 in S2. cbn [fst snd] in S2.
  pose proof (quiet_trans _ _ _ Q1 Q2) as (Hti & _ & Hwr & Hsent).
  apply client_init_ok in H1 as H1'. destruct H1' as (-> & _ & _).
  apply client_tty_init_ok in H2 as H2'.
  destruct H2' as (Hsd & Hfd & _ & _). cbn [console_sd set_console_sd] in Hsd.
  set (wa := emit (EvPoll (PollReady true false)) w2).
  destruct (line_arms_the_scanner c2 wa p
              (RdData (TILDE :: DOT :: rest) :: q) S2 Hfd Hcr Hl1)
    as (c3 & w3 & Hc3 & Harm & (Hsd3 & Hfd3 & _) & Hq3 & _ & Hsent3);
    [unfold wa; cbn [w_tty_in emit]; congruence
     | apply (writes_succeed_same w); [unfold wa; cbn [w_wr emit]; congruence
                                       | exact Hw] |].
  set (wb := emit (EvPoll (PollReady true false)) w3).
  destruct (escape_when_armed c3 wb rest q Harm) as (w4 & Hc4 & Htr4);
    [congruence | exact Hl2 | unfold wb; cbn [w_tty_in emit]; exact Hq3 |].
  exists (client_fini (set_esc_str_pos 2 c3) w4).
  split.
  - unfold main. rewrite H1. change (negb (0 =? 0)) with false. cbv iota.
    rewrite H2. change (negb (0 =? 0)) with false. cbv iota.
    cbn [main_loop]. fold wa. unfold main_loop_body at 1. rewrite Hc3.
    cbn [process_rc_eqb andb negb]. fold wb.
    unfold main_loop_body. rewrite Hc4. reflexivity.
  - destruct (client_fini_quiet (set_esc_str_pos 2 c3) w4) as (_ & _ & _ & Hf).
    rewrite Hf, Htr4, sent_to_read. unfold wb. cbn [w_trace emit].
    rewrite sent_to_app. simpl. rewrite app_nil_r.
    rewrite <- Hsd, Hsent3. unfold wa. cbn [w_trace emit].
    rewrite sent_to_app. simpl. rewrite app_nil_r.
    rewrite Hsent. rewrite Hsd. reflexivity.
Qed.

Lemma session_ends_by_escape_witness :
  exists w',
    main [PollReady true false; PollReady true false; PollReady true true]
      (fresh_world tty_startup
         [RdData [LOWER_A; LOWER_B; CR]; RdData [TILDE; DOT; LOWER_X]]
         [RdData [LOWER_X]] [])
    = Some (Some EXIT_SUCCESS, w') /\
    sent_to 3 (w_trace w') = [LOWER_A; LOWER_B; CR].
Proof.
  refine (session_ends_by_escape [PollReady true true]
            (fresh_world tty_startup
               [RdData [LOWER_A; LOWER_B; CR]; RdData [TILDE; DOT; LOWER_X]]
               [RdData [LOWER_X]] [])
            _ _ _ _ [LOWER_A; LOWER_B] [LOWER_X] [] _ _ _ _ _ _ _).
  - reflexivity.
  - reflexivity.
  - intros H. repeat (destruct H as [H | H]; [discriminate H |]). exact H.
  - apply Nat.leb_le. reflexivity.
  - apply Nat.leb_le. reflexivity.
  - reflexivity.
  - constructor.
Defined.

(** ** A carriage return that is not followed by the escape *)

Lemma scan_byte_disarm (buf : list byte) (i : Z) (c : console_client)
  (w : world) (b : byte) :
  index buf i = Some b -> b <> CR -> b <> TILDE -> scan_armed c ->
  scan_byte buf i c w
  = Some (Continue (set_newline false (set_esc_str_pos 0 c)) w).
Proof.
  intros H Hcr Ht [Hp Hn]. unfold scan_byte.
  rewrite H, (byte_eqb_neq _ _ Hcr), Hn, Hp. simpl negb. cbv iota.
  rewrite index_esc_str_0, (byte_eqb_neq _ _ Ht). reflexivity.
Qed.

Lemma tty_loop_idle (n : nat) :
  forall (buf : list byte) (i : Z) (c : console_client) (w : world),
    newline c = false ->
    (forall j, i <= j < i + Z.of_nat n ->
               exists b, index buf j = Some b /\ b <> CR) ->
    tty_loop n buf i c w = Some (Continue c w).
Proof.
  induction n as [| n IH]; intros buf i c w Hnl Hb; [reflexivity |].
  cbn [tty_loop].
  destruct (Hb i) as (b & Hi & Hne); [lia |].
  rewrite (scan_byte_idle _ _ _ _ b Hi Hne Hnl).
  apply IH; [exact Hnl |]. intros j Hj. apply Hb. lia.
Qed.

Lemma index_suffix_not_CR (p s : list byte) (j : Z) :
  ~ In CR s ->
  Z.of_nat (length p) <= j < Z.of_nat (length p) + Z.of_nat (length s) ->
  exists b, index (p ++ s) j = Some b /\ b <> CR.
Proof.
  intros Hs Hj.
  replace j with (Z.of_nat (length p) + (j - Z.of_nat (length p))) by lia.
  rewrite index_app_r by lia.
  destruct (index_in_range s (j - Z.of_nat (length p))) as [b Hb]; [lia |].
  exists b. split; [exact Hb |].
  intros ->. apply index_In in Hb. contradiction.
Qed.

(** In the initial state, a chunk in which the only carriage return is
    followed by a byte other than '~' and carriage return is forwarded
    whole, as one write, and leaves the scanner in its initial state,
    whatever comes after that byte: a '~' '.' later in the chunk is no
    escape. *)
Theorem escape_needs_the_carriage_return_just_before (c : console_client)
  (w : world) (p : list byte) (b : byte) (s : list byte)
  (q : list read_result) :
  scan_initial c ->
  fd_in c = STDIN_FILENO ->
  ~ In CR p -> b <> CR -> b <> TILDE -> ~ In CR s ->
  (length (p ++ CR :: b :: s) <= BUFSZ)%nat ->
  w_tty_in w = RdData (p ++ CR :: b :: s) :: q ->
  writes_succeed w ->
  exists c' w',
    process_tty c w = Some (PROCESS_OK, c', w') /\
    scan_initial c' /\ same_session c c' /\
    w_trace w'
    = w_trace w ++ [EvRead STDIN_FILENO (RdData (p ++ CR :: b :: s));
                    EvWrite (console_sd c) (p ++ CR :: b :: s) WrOk].
Proof.
  intros [Hp Hnl] Hfd Hcr Hb Ht Hs Hlen Hq Hw.
  destruct (read_tty_chunk (fd_in c) w _ q Hfd Hq Hlen)
    as (w1 & Hr & _ & _ & Hwr1 & Htr1).
  set (buf := p ++ CR :: b :: s) in *.
  set (c1 := set_newline false (set_esc_str_pos 0 (set_newline true c))).
  assert (Hblen : length buf = (length p + S (S (length s)))%nat)
    by (unfold buf; rewrite length_app; reflexivity).
  assert (H0 : index buf (Z.of_nat (length p)) = Some CR).
  { replace (Z.of_nat (length p)) with (Z.of_nat (length p) + 0) by lia.
    unfold buf. rewrite index_app_r by lia. reflexivity. }
  assert (H1 : index buf (Z.of_nat (length p) + 1) = Some b).
  { unfold buf. rewrite index_app_r by lia. reflexivity. }
  assert (Hl : tty_loop (length buf) buf 0 c w1 = Some (Continue c1 w1)).
  { rewrite Hblen, tty_loop_app.
    unfold buf at 1. rewrite tty_loop_plain_prefix; auto; try lia.
    fold buf. rewrite Z.add_0_l. cbn [tty_loop].
    rewrite (scan_byte_cr _ _ _ _ H0).
    rewrite (scan_byte_disarm _ _ _ _ b H1 Hb Ht);
      [| split; [exact Hp | reflexivity]].
    fold c1. apply tty_loop_idle; [reflexivity |].
    intros j Hj.
    unfold buf.
    replace (p ++ CR :: b :: s) with ((p ++ [CR; b]) ++ s)
      by (rewrite <- app_assoc; reflexivity).
    apply index_suffix_not_CR; [exact Hs |].
    rewrite length_app. cbn [length]. lia. }
  destruct (process_tty_runs_through c w w1 buf c1 w1 Hr)
    as (w' & Hcall & _ & _ & Htr);
    [unfold buf; now destruct p | exact Hl | cbn; lia
     | now apply (writes_succeed_same w) |].
  exists c1, w'. split; [exact Hcall |]. split; [split; reflexivity |].
  split; [unfold same_session; cbn; auto |].
  rewrite Htr, Htr1, <- app_assoc.
  change (console_sd c1) with (console_sd c).
  change (esc_str_pos c1) with 0.
  rewrite Z.sub_0_r, Nat2Z.id, firstn_all. reflexivity.
Qed.

Lemma escape_needs_the_carriage_return_just_before_witness :
  exists c' w',
    process_tty session_client
      (tty_world [[LOWER_A; CR; LOWER_X; TILDE; DOT]])
    = Some (PROCESS_OK, c', w') /\
    scan_initial c' /\ same_session session_client c' /\
    w_trace w'
    = [EvRead STDIN_FILENO (RdData [LOWER_A; CR; LOWER_X; TILDE; DOT]);
       EvWrite 3 [LOWER_A; CR; LOWER_X; TILDE; DOT] WrOk].
Proof.
  apply (escape_needs_the_carriage_return_just_before session_client
           (tty_world [[LOWER_A; CR; LOWER_X; TILDE; DOT]])
           [LOWER_A] LOWER_X [TILDE; DOT] []).
  - split; reflexivity.
  - reflexivity.
  - intros H. repeat (destruct H as [H | H]; [discriminate H |]). exact H.
  - discriminate.
  - discriminate.
  - intros H. repeat (destruct H as [H | H]; [discriminate H |]). exact H.
  - apply Nat.leb_le. reflexivity.
  - reflexivity.
  - constructor.
Defined.

(** ** Reads and writes that fail, as the loop sees them *)

Lemma write_fails (fd : Z) (bs : list byte) (w : world) (k : nat)
  (wr : list write_outcome) :
  w_wr w = WrFail k :: wr ->
  write_buf_to_fd fd bs w = (-1, emit (EvWrite fd bs (WrFail k)) (set_wr wr w)).
Proof. intros H. unfold write_buf_to_fd. now rewrite H. Qed.

(** A read on the terminal that fails ends the loop with [PROCESS_ERR] and
    a negative [rc], hence the failure exit code; nothing is printed, and
    the socket is not read in that cycle even when it is ready. *)
Theorem tty_read_error_ends_the_loop (polls : list poll_result) (r1 : bool)
  (c : console_client) (w : world) (q : list read_result) :
  fd_in c = STDIN_FILENO ->
  w_tty_in w = RdErr :: q ->
  exists w',
    main_loop (PollReady true r1 :: polls) PROCESS_OK c w
    = Some (BreakStatus PROCESS_ERR (-1), c, w') /\
    exit_status (-1) = EXIT_FAILURE /\
    w_trace w'
    = w_trace w ++ [EvPoll (PollReady true r1); EvRead STDIN_FILENO RdErr].
Proof.
  intros Hfd Hq. cbn [main_loop]. unfold main_loop_body, process_tty, read.
  rewrite Hfd, Z.eqb_refl. cbn [w_tty_in emit]. rewrite Hq. cbn [pop_read].
  cbn [process_rc_eqb andb negb].
  eexists. split; [reflexivity |]. split; [reflexivity |].
  cbn [w_trace emit set_tty_in]. now rewrite <- app_assoc.
Qed.

Lemma tty_read_error_ends_the_loop_witness :
  exists w',
    main_loop [PollReady true true; PollReady true true] PROCESS_OK
      session_client
      (fresh_world tty_startup [RdErr] [RdData [LOWER_X]] [])
    = Some (BreakStatus PROCESS_ERR (-1), session_client, w') /\
    exit_status (-1) = EXIT_FAILURE /\
    w_trace w' = [EvPoll (PollReady true true); EvRead STDIN_FILENO RdErr].
Proof.
  apply (tty_read_error_ends_the_loop [PollReady true true] true session_client
           (fresh_world tty_startup [RdErr] [RdData [LOWER_X]] []) []);
    reflexivity.
Defined.

(** A read on the socket that fails ends the loop with [PROCESS_ERR] and a
    negative [rc], after the warning "Can't read from server". *)
Theorem console_read_error_ends_the_loop (polls : list poll_result)
  (c : console_client) (w : world) (q : list read_result) :
  console_sd c <> STDIN_FILENO ->
  w_con_in w = RdErr :: q ->
  exists w',
    main_loop (PollReady false true :: polls) PROCESS_OK c w
    = Some (BreakStatus PROCESS_ERR (-1), c, w') /\
    w_trace w'
    = w_trace w ++ [EvPoll (PollReady false true);
                    EvRead (console_sd c) RdErr;
                    EvWarn "Can't read from server"].
Proof.
  intros Hsd Hq. cbn [main_loop]. unfold main_loop_body.
  cbn [process_rc_eqb andb]. unfold process_console, read.
  destruct (Z.eqb_spec (console_sd c) STDIN_FILENO) as [| _]; [contradiction |].
  cbn [w_con_in emit]. rewrite Hq. cbn [pop_read process_rc_eqb negb].
  eexists. split; [reflexivity |].
  cbn [w_trace emit set_con_in]. now rewrite <- !app_assoc.
Qed.

Lemma console_read_error_ends_the_loop_witness :
  exists w',
    main_loop [PollReady false true; PollErr] PROCESS_OK session_client
      (fresh_world tty_startup [] [RdErr] [])
    = Some (BreakStatus PROCESS_ERR (-1), session_client, w') /\
    w_trace w'
    = [EvPoll (PollReady false true); EvRead 3 RdErr;
       EvWarn "Can't read from server"].
Proof.
  apply (console_read_error_ends_the_loop [PollErr] session_client
           (fresh_world tty_startup [] [RdErr] []) []);
    [discriminate | reflexivity].
Defined.

(** When the write that ends [process_tty] fails, here on a chunk without
    carriage return, the loop ends with [PROCESS_ERR] and a negative [rc],
    and the socket is not read in that cycle even when it is ready. *)
Theorem tty_write_error_ends_the_loop (polls : list poll_result) (r1 : bool)
  (c : console_client) (w : world) (ch : list byte) (q : list read_result)
  (k : nat) (wr : list write_outcome) :
  scan_initial c ->
  fd_in c = STDIN_FILENO ->
  plain_chunk ch ->
  w_tty_in w = RdData ch :: q ->
  w_wr w = WrFail k :: wr ->
  exists w',
    main_loop (PollReady true r1 :: polls) PROCESS_OK c w
    = Some (BreakStatus PROCESS_ERR (-1), c, w') /\
    w_trace w'
    = w_trace w ++ [EvPoll (PollReady true r1);
                    EvRead STDIN_FILENO (RdData ch);
                    EvWrite (console_sd c) ch (WrFail k)].
Proof.
  intros [Hp Hnl] Hfd (Hne & Hlen & Hcr) Hq Hwr.
  set (w0 := emit (EvPoll (PollReady true r1)) w).
  destruct (read_tty_chunk (fd_in c) w0 ch q Hfd Hq Hlen)
    as (w1 & Hr & _ & _ & Hwr1 & Htr1).
  assert (Hcall : process_tty c w0
                  = Some (PROCESS_ERR, c,
                          emit (EvWrite (console_sd c) ch (WrFail k))
                            (set_wr wr w1))).
  { unfold process_tty.
    rewrite Hr, (nonempty_length _ Hne), tty_loop_plain by (auto; lia).
    rewrite Hp, take_all.
    rewrite (write_fails _ _ w1 k wr) by (rewrite Hwr1; exact Hwr).
    reflexivity. }
  cbn [main_loop]. fold w0. unfold main_loop_body. rewrite Hcall.
  cbn [process_rc_eqb andb negb].
  eexists. split; [reflexivity |].
  cbn [w_trace emit set_wr]. rewrite Htr1. unfold w0. cbn [w_trace emit].
  now rewrite <- !app_assoc.
Qed.

Lemma tty_write_error_ends_the_loop_witness :
  exists w',
    main_loop [PollReady true true] PROCESS_OK session_client
      (fresh_world tty_startup [RdData [LOWER_A; LOWER_B]] [RdData [LOWER_X]]
         [WrFail 1])
    = Some (BreakStatus PROCESS_ERR (-1), session_client, w') /\
    w_trace w'
    = [EvPoll (PollReady true true);
       EvRead STDIN_FILENO (RdData [LOWER_A; LOWER_B]);
       EvWrite 3 [LOWER_A; LOWER_B] (WrFail 1)].
Proof.
  apply (tty_write_error_ends_the_loop [] true session_client
           (fresh_world tty_startup [RdData [LOWER_A; LOWER_B]]
              [RdData [LOWER_X]] [WrFail 1])
           [LOWER_A; LOWER_B] [] 1 []).
  - split; reflexivity.
  - reflexivity.
  - apply plain_chunk_by_test. reflexivity.
  - reflexivity.
  - reflexivity.
Defined.

(** When the write of [process_console] to [fd_out] fails, the loop ends
    with [PROCESS_ERR] and a negative [rc]. *)
Theorem console_write_error_ends_the_loop (polls : list poll_result)
  (c : console_client) (w : world) (ch : list byte) (q : list read_result)
  (k : nat) (wr : list write_outcome) :
  console_sd c <> STDIN_FILENO ->
  console_chunk ch ->
  w_con_in w = RdData ch :: q ->
  w_wr w = WrFail k :: wr ->
  exists w',
    main_loop (PollReady false true :: polls) PROCESS_OK c w
    = Some (BreakStatus PROCESS_ERR (-1), c, w') /\
    w_trace w'
    = w_trace w ++ [EvPoll (PollReady false true);
                    EvRead (console_sd c) (RdData ch);
                    EvWrite (fd_out c) ch (WrFail k)].
Proof.
  intros Hsd [Hne Hlen] Hq Hwr.
  set (w0 := emit (EvPoll (PollReady false true)) w).
  destruct (read_console_chunk (console_sd c) w0 ch q Hsd Hq Hlen)
    as (w1 & Hr & _ & _ & Hwr1 & Htr1).
  cbn [main_loop]. fold w0. unfold main_loop_body.
  cbn [process_rc_eqb andb]. unfold process_console.
  rewrite Hr, (nonempty_length _ Hne).
  rewrite (write_fails _ _ w1 k wr) by (rewrite Hwr1; exact Hwr).
  change (-1 =? 0) with false. cbn [process_rc_eqb negb].
  eexists. split; [reflexivity |].
  cbn [w_trace emit set_wr]. rewrite Htr1. unfold w0. cbn [w_trace emit].
  now rewrite <- !app_assoc.
Qed.

Lemma console_write_error_ends_the_loop_witness :
  exists w',
    main_loop [PollReady false true] PROCESS_OK session_client
      (fresh_world tty_startup [] [RdData [LOWER_X]] [WrFail 0])
    = Some (BreakStatus PROCESS_ERR (-1), session_client, w') /\
    w_trace w'
    = [EvPoll (PollReady false true); EvRead 3 (RdData [LOWER_X]);
       EvWrite 1 [LOWER_X] (WrFail 0)].
Proof.
  apply (console_write_error_ends_the_loop [] session_client
           (fresh_world tty_startup [] [RdData [LOWER_X]] [WrFail 0])
           [LOWER_X] [] 0 []).
  - discriminate.
  - split; [discriminate | apply Nat.leb_le; reflexivity].
  - reflexivity.
  - reflexivity.
Defined.

(** ** Both directions in the same cycles *)

Lemma process_tty_plain_world (c : console_client) (w : world)
  (ch : list byte) (q : list read_result) :
  scan_initial c ->
  fd_in c = STDIN_FILENO ->
  plain_chunk ch ->
  w_tty_in w = RdData ch :: q ->
  writes_succeed w ->
  process_tty c w
  = Some (PROCESS_OK, c,
          emit (EvWrite (console_sd c) ch WrOk)
            (set_wr (tl (w_wr w))
               (emit (EvRead STDIN_FILENO (RdData ch)) (set_tty_in q w)))).
Proof.
  intros [Hp Hnl] Hfd (Hne & Hlen & Hcr) Hq Hw.
  unfold process_tty, read. rewrite Hfd, Z.eqb_refl, Hq. unfold pop_read.
  rewrite (proj2 (Nat.leb_le _ _) Hlen), (nonempty_length _ Hne).
  rewrite tty_loop_plain by (auto; lia).
  rewrite Hp, take_all, write_succeeds by exact Hw.
  reflexivity.
Qed.

Lemma process_console_chunk_world (c : console_client) (w : world)
  (ch : list byte) (q : list read_result) :
  console_sd c <> STDIN_FILENO ->
  console_chunk ch ->
  w_con_in w = RdData ch :: q ->
  writes_succeed w ->
  process_console c w
  = (PROCESS_OK,
     emit (EvWrite (fd_out c) ch WrOk)
       (set_wr (tl (w_wr w))
          (emit (EvRead (console_sd c) (RdData ch)) (set_con_in q w)))).
Proof.
  intros Hsd [Hne Hlen] Hq Hw. unfold process_console, read.
  destruct (Z.eqb_spec (console_sd c) STDIN_FILENO) as [| _]; [contradiction |].
  rewrite Hq. unfold pop_read.
  rewrite (proj2 (Nat.leb_le _ _) Hlen), (nonempty_length _ Hne).
  rewrite write_succeeds by exact Hw.
  reflexivity.
Qed.

Lemma writes_succeed_tl (w w' : world) :
  w_wr w' = tl (w_wr w) -> writes_succeed w -> writes_succeed w'.
Proof.
  unfold writes_succeed. intros -> H.
  destruct (w_wr w) as [| o l]; [constructor | now inversion H].
Qed.

(** From the initial state of the scanner, the terminal on standard input
    and the socket on another descriptor: over cycles in which both
    descriptors are ready, the terminal delivering chunks without carriage
    return and the socket delivering any chunks, the writes going through,
    each cycle serves the terminal and then the socket and the loop goes
    on with the client as it was.  When the socket and [fd_out] are
    different descriptors, each side's bytes arrive whole and in order on
    the other side: the socket receives the terminal's chunks, [fd_out] the
    socket's. *)
Theorem both_directions_are_relayed (cycles : list (list byte * list byte)) :
  forall (c : console_client) (w : world) (q1 q2 : list read_result),
    scan_initial c ->
    fd_in c = STDIN_FILENO ->
    console_sd c <> STDIN_FILENO ->
    Forall (fun x => plain_chunk (fst x) /\ console_chunk (snd x)) cycles ->
    w_tty_in w = map RdData (map fst cycles) ++ q1 ->
    w_con_in w = map RdData (map snd cycles) ++ q2 ->
    writes_succeed w ->
    exists w',
      main_loop (repeat (PollReady true true) (length cycles)) PROCESS_OK c w
      = Some (Blocked, c, w') /\
      (fd_out c <> console_sd c ->
       sent_to (console_sd c) (w_trace w')
       = sent_to (console_sd c) (w_trace w) ++ concat (map fst cycles) /\
       sent_to (fd_out c) (w_trace w')
       = sent_to (fd_out c) (w_trace w) ++ concat (map snd cycles)).
Proof.
  induction cycles as [| [tch cch] cycles IH];
    intros c w q1 q2 Hi Hfd Hsd Hall Hq1 Hq2 Hw.
  - exists w. split; [reflexivity |]. simpl. now rewrite !app_nil_r.
  - inversion Hall as [| ? ? [Ht Hc] Hrest]; subst. cbn [fst snd] in Ht, Hc.
    cbn [map app] in Hq1, Hq2.
    set (w0 := emit (EvPoll (PollReady true true)) w).
    set (wa := emit (EvWrite (console_sd c) tch WrOk)
                 (set_wr (tl (w_wr w0))
                    (emit (EvRead STDIN_FILENO (RdData tch))
                       (set_tty_in (map RdData (map fst cycles) ++ q1) w0)))).
    set (wb := emit (EvWrite (fd_out c) cch WrOk)
                 (set_wr (tl (w_wr wa))
                    (emit (EvRead (console_sd c) (RdData cch))
                       (set_con_in (map RdData (map snd cycles) ++ q2) wa)))).
    assert (Hw0 : writes_succeed w0) by exact Hw.
    assert (Hwa : writes_succeed wa)
      by (apply (writes_succeed_tl w0); [reflexivity | exact Hw0]).
    assert (Hwb : writes_succeed wb)
      by (apply (writes_succeed_tl wa); [reflexivity | exact Hwa]).
    assert (Hcall1 : process_tty c w0 = Some (PROCESS_OK, c, wa))
      by (apply process_tty_plain_world; auto).
    assert (Hcall2 : process_console c wa = (PROCESS_OK, wb))
      by (apply process_console_chunk_world; auto).
    destruct (IH c wb q1 q2 Hi Hfd Hsd Hrest eq_refl eq_refl Hwb)
      as (w' & Hloop & Hsent).
    exists w'. split.
    + cbn [length repeat main_loop]. fold w0. unfold main_loop_body.
      rewrite Hcall1. cbn [process_rc_eqb andb]. rewrite Hcall2.
      cbn [process_rc_eqb negb]. exact Hloop.
    + intros Hout. destruct (Hsent Hout) as [Hs1 Hs2]. split.
      * rewrite Hs1. unfold wb, wa, w0.
        cbn [w_trace emit set_wr set_con_in set_tty_in map concat fst].
        rewrite !sent_to_app. simpl.
        destruct (Z.eqb_spec (fd_out c) (console_sd c)); [contradiction |].
        rewrite Z.eqb_refl, !app_nil_r, <- !app_assoc. reflexivity.
      * rewrite Hs2. unfold wb, wa, w0.
        cbn [w_trace emit set_wr set_con_in set_tty_in map concat snd].
        rewrite !sent_to_app. simpl.
        destruct (Z.eqb_spec (console_sd c) (fd_out c)); [congruence |].
        rewrite Z.eqb_refl, !app_nil_r, <- !app_assoc. reflexivity.
Qed.

Lemma both_directions_are_relayed_witness :
  exists w',
    main_loop [PollReady true true; PollReady true true] PROCESS_OK
      session_client
      (fresh_world tty_startup
         [RdData [LOWER_A]; RdData [TILDE; DOT]]
         [RdData [CR; LOWER_B]; RdData [LOWER_X]] [])
    = Some (Blocked, session_client, w') /\
    (1 <> 3 ->
     sent_to 3 (w_trace w') = [LOWER_A; TILDE; DOT] /\
     sent_to 1 (w_trace w') = [CR; LOWER_B; LOWER_X]).
Proof.
  apply (both_directions_are_relayed
           [([LOWER_A], [CR; LOWER_B]); ([TILDE; DOT], [LOWER_X])]
           session_client
           (fresh_world tty_startup
              [RdData [LOWER_A]; RdData [TILDE; DOT]]
              [RdData [CR; LOWER_B]; RdData [LOWER_X]] []) [] []).
  - split; reflexivity.
  - reflexivity.
  - discriminate.
  - repeat (apply Forall_cons;
            [split; [apply plain_chunk_by_test; reflexivity
                    | split; [discriminate | apply Nat.leb_le; reflexivity]] |]).
    apply Forall_nil.
  - reflexivity.
  - reflexivity.
  - constructor.
Defined.
